(** * mcp-server-email: a shallow embedding of [src/server.py]

    The server exposes four Gmail operations (send, list, search,
    mark-as-read) through [call_tool].  The embedding follows the Python
    source function by function:

    - Python values that travel through [arguments] and through the Gmail
      API responses are an inductive type [pyval];
    - [str] is a sequence of Unicode code points, [bytes] a sequence of
      octets;
    - raising code lives in a state-and-exception monad [M] over a [World]
      that holds the module global [_gmail_service], the token file, the
      state of everything outside the process and a log of the outside
      calls the program made.

    What the process cannot see (the authorization server, the consent
    flow, the mailbox behind the Gmail API, the MIME encoder) is a record
    of functions [Externals] over an arbitrary state; every theorem
    quantifies over it. *)

From Stdlib Require Import List ZArith NArith String Ascii Bool Lia.
From Stdlib Require Import DecimalString.
Import ListNotations.

Set Implicit Arguments.
Set Warnings "-register-all".

(** ** Python text and exceptions *)

Module Py.

(** A Python [str]: a sequence of code points. *)
Definition str := list N.

(** A Python [bytes]: a sequence of octets (each below 256). *)
Definition bytes := list N.

(** An ASCII literal of the source as a [str]. *)
Definition lit (s : string) : str :=
  map N_of_ascii (list_ascii_of_string s).

Fixpoint str_eqb (a b : str) : bool :=
  match a, b with
  | [], [] => true
  | x :: a', y :: b' => N.eqb x y && str_eqb a' b'
  | _, _ => false
  end.

(** [str(n)] for an [int]. *)
Definition str_of_Z (z : Z) : str :=
  lit (NilZero.string_of_int (Z.to_int z)).

Fixpoint is_prefix (p s : str) : bool :=
  match p, s with
  | [], _ => true
  | x :: p', y :: s' => N.eqb x y && is_prefix p' s'
  | _ :: _, [] => false
  end.

(** [p in s] for two [str]: substring test. *)
Fixpoint is_substring (p s : str) : bool :=
  is_prefix p s ||
  match s with
  | [] => false
  | _ :: s' => is_substring p s'
  end.

(** [c.isspace()] for one code point: the characters [str.strip()]
    removes when called without argument. *)
Definition isspace (c : N) : bool :=
  ((9 <=? c) && (c <=? 13) || (28 <=? c) && (c <=? 32) ||
   (c =? 133) || (c =? 160) || (c =? 5760) ||
   (8192 <=? c) && (c <=? 8202) || (c =? 8232) || (c =? 8233) ||
   (c =? 8239) || (c =? 8287) || (c =? 12288))%N.

Fixpoint lstrip (s : str) : str :=
  match s with
  | [] => []
  | c :: s' => if isspace c then lstrip s' else s
  end.

Definition rstrip (s : str) : str := rev (lstrip (rev s)).

(** [s.strip()] *)
Definition strip (s : str) : str := rstrip (lstrip s).

(** [s[:n]] *)
Definition slice_to (n : nat) (s : str) : str := firstn n s.

(** A raised Python exception, with its class name and [str(e)].
    [Exc] is an instance of a subclass of [Exception], the only ones a
    clause [except Exception] catches; [BaseExc] stands for the others
    ([KeyboardInterrupt], [SystemExit], [asyncio.CancelledError]). *)
Inductive exn : Type :=
| Exc (cls : string) (msg : str)
| BaseExc (cls : string) (msg : str).

Definition exn_str (e : exn) : str :=
  match e with Exc _ m => m | BaseExc _ m => m end.

Definition is_Exception (e : exn) : bool :=
  match e with Exc _ _ => true | BaseExc _ _ => false end.

(** The outcome of evaluating a Python expression. *)
Inductive Res (A : Type) : Type :=
| Ok (a : A)
| Raise (e : exn).
Arguments Ok {A} a.
Arguments Raise {A} e.

Definition rbind {A B} (r : Res A) (k : A -> Res B) : Res B :=
  match r with Ok a => k a | Raise e => Raise e end.

Definition KeyError (k : str) : exn :=
  Exc "KeyError" (lit "'" ++ k ++ lit "'").
Definition TypeError (m : string) : exn := Exc "TypeError" (lit m).
Definition AttributeError (m : string) : exn := Exc "AttributeError" (lit m).
Definition ValueError (m : str) : exn := Exc "ValueError" m.

(** ** Python values *)

(** The values JSON decoding produces: what [arguments] and the Gmail API
    responses are made of.  A [dict] keeps its items in insertion order;
    its keys are strings.  Floating-point numbers are left out. *)
Inductive pyval : Type :=
| VNone
| VBool (b : bool)
| VInt (z : Z)
| VStr (s : str)
| VList (l : list pyval)
| VDict (d : list (str * pyval)).

Definition type_name (v : pyval) : string :=
  match v with
  | VNone => "NoneType"
  | VBool _ => "bool"
  | VInt _ => "int"
  | VStr _ => "str"
  | VList _ => "list"
  | VDict _ => "dict"
  end.

Fixpoint dict_get (k : str) (d : list (str * pyval)) : option pyval :=
  match d with
  | [] => None
  | (k', v) :: d' => if str_eqb k k' then Some v else dict_get k d'
  end.

(** [v == s] for a string literal [s]. *)
Definition eq_str (v : pyval) (s : str) : bool :=
  match v with VStr t => str_eqb t s | _ => false end.

(** [v[k]] for a string key [k]. *)
Definition getitem (v : pyval) (k : str) : Res pyval :=
  match v with
  | VDict d =>
      match dict_get k d with
      | Some x => Ok x
      | None => Raise (KeyError k)
      end
  | VList _ =>
      Raise (TypeError "list indices must be integers or slices, not str")
  | VStr _ => Raise (TypeError "string indices must be integers, not 'str'")
  | _ => Raise (TypeError ("'" ++ type_name v ++ "' object is not subscriptable"))
  end.

(** [k in v] for a string key [k]. *)
Definition contains (k : str) (v : pyval) : Res bool :=
  match v with
  | VDict d => Ok (match dict_get k d with Some _ => true | None => false end)
  | VList l => Ok (existsb (fun x => eq_str x k) l)
  | VStr s => Ok (is_substring k s)
  | _ => Raise (TypeError ("argument of type '" ++ type_name v ++ "' is not iterable"))
  end.

(** [v.get(k, dflt)] *)
Definition get (v : pyval) (k : str) (dflt : pyval) : Res pyval :=
  match v with
  | VDict d => Ok (match dict_get k d with Some x => x | None => dflt end)
  | _ => Raise (AttributeError ("'" ++ type_name v ++ "' object has no attribute 'get'"))
  end.

(** The items a [for] loop over [v] visits. *)
Definition iter (v : pyval) : Res (list pyval) :=
  match v with
  | VList l => Ok l
  | VDict d => Ok (map (fun kv => VStr (fst kv)) d)
  | VStr s => Ok (map (fun c => VStr [c]) s)
  | _ => Raise (TypeError ("'" ++ type_name v ++ "' object is not iterable"))
  end.

(** Truth value of [v] in [if v:] and [if not v:]. *)
Definition truthy (v : pyval) : bool :=
  match v with
  | VNone => false
  | VBool b => b
  | VInt z => negb (z =? 0)%Z
  | VStr s => match s with [] => false | _ => true end
  | VList l => match l with [] => false | _ => true end
  | VDict d => match d with [] => false | _ => true end
  end.

(** Whether [v] can be a dictionary key. *)
Definition hashable (v : pyval) : bool :=
  match v with VList _ | VDict _ => false | _ => true end.

(** [min(v, m)] for an [int] constant [m]: Python returns [m] when
    [m < v] and [v] otherwise; the comparison raises on a value that is
    not a number. *)
Definition min_int (v : pyval) (m : Z) : Res pyval :=
  match v with
  | VInt z => Ok (if (m <? z)%Z then VInt m else VInt z)
  | VBool b => Ok (if (m <? (if b then 1 else 0))%Z then VInt m else VBool b)
  | _ => Raise (TypeError ("'<' not supported between instances of 'int' and '"
                             ++ type_name v ++ "'"))
  end.

End Py.

(** ** The codecs of the message normalizer *)

Module Codec.
Import Py.

(** [binascii.Error] is a subclass of [ValueError]. *)
Definition BinasciiError (m : str) : exn := Exc "binascii.Error" m.
Definition UnicodeDecodeError (m : string) : exn :=
  Exc "UnicodeDecodeError" (lit m).

(** [s.translate(_urlsafe_decode_translation)]: '-' becomes '+' and '_'
    becomes '/'. *)
Definition urlsafe_translate (c : N) : N :=
  (if c =? 45 then 43 else if c =? 95 then 47 else c)%N.

(** [table_a2b_base64]: the six-bit value of an alphabet character. *)
Definition b64_value (c : N) : option N :=
  (if (65 <=? c) && (c <=? 90) then Some (c - 65)
   else if (97 <=? c) && (c <=? 122) then Some (c - 97 + 26)
   else if (48 <=? c) && (c <=? 57) then Some (c - 48 + 52)
   else if c =? 43 then Some 62
   else if c =? 47 then Some 63
   else None)%N.

(** The loop of [binascii.a2b_base64] without [strict_mode]:
    [quad_pos] is the position in the current group of four characters,
    [leftchar] the bits not yet written, [pads] the padding characters
    seen since the last alphabet character, [out] the octets written, in
    reverse.  Characters outside the alphabet are skipped; a complete
    padding sequence ends the input. *)
Fixpoint a2b_loop (input : list N) (quad_pos : nat) (leftchar : N)
    (pads : nat) (out : list N) : Res bytes :=
  match input with
  | [] =>
      match quad_pos with
      | O => Ok (rev out)
      | 1%nat =>
          Raise (BinasciiError
            (lit "Invalid base64-encoded string: number of data characters ("
             ++ str_of_Z (Z.of_nat (List.length out / 3 * 4 + 1))
             ++ lit ") cannot be 1 more than a multiple of 4"))
      | _ => Raise (BinasciiError (lit "Incorrect padding"))
      end
  | c :: rest =>
      if (c =? 61)%N then
        if (2 <=? quad_pos)%nat then
          if (4 <=? quad_pos + S pads)%nat then Ok (rev out)
          else a2b_loop rest quad_pos leftchar (S pads) out
        else a2b_loop rest quad_pos leftchar pads out
      else
        match b64_value c with
        | None => a2b_loop rest quad_pos leftchar pads out
        | Some v =>
            match quad_pos with
            | O => a2b_loop rest 1 v 0 out
            | 1%nat =>
                a2b_loop rest 2 (N.land v 15) 0
                  (N.lor (N.shiftl leftchar 2) (N.shiftr v 4) :: out)
            | 2%nat =>
                a2b_loop rest 3 (N.land v 3) 0
                  (N.lor (N.shiftl leftchar 4) (N.shiftr v 2) :: out)
            | _ =>
                a2b_loop rest 0 0%N 0
                  (N.lor (N.shiftl leftchar 6) v :: out)
            end
        end
  end.

(** [base64.urlsafe_b64decode(v)]: a [str] argument must be ASCII, is
    translated to the standard alphabet and decoded. *)
Definition urlsafe_b64decode (v : pyval) : Res bytes :=
  match v with
  | VStr s =>
      if forallb (fun c => (c <? 128)%N) s
      then a2b_loop (map urlsafe_translate s) 0 0%N 0 []
      else Raise (ValueError
                    (lit "string argument should contain only ASCII characters"))
  | _ =>
      Raise (TypeError
        ("argument should be a bytes-like object or ASCII string, not '"
         ++ type_name v ++ "'"))
  end.

Definition is_cont (b : N) : bool := ((128 <=? b) && (b <=? 191))%N.

(** [b.decode()]: strict UTF-8.  The exception message of the real codec
    also names the offending byte and its position. *)
Fixpoint utf8_decode_fuel (fuel : nat) (b : bytes) : Res str :=
  match fuel with
  | O => Ok []
  | S fuel' =>
      match b with
      | [] => Ok []
      | b0 :: r0 =>
          if (b0 <? 128)%N then
            rbind (utf8_decode_fuel fuel' r0) (fun s => Ok (b0 :: s))
          else if ((194 <=? b0) && (b0 <=? 223))%N then
            match r0 with
            | b1 :: r1 =>
                if is_cont b1 then
                  rbind (utf8_decode_fuel fuel' r1) (fun s =>
                    Ok (((b0 - 192) * 64 + (b1 - 128))%N :: s))
                else Raise (UnicodeDecodeError "'utf-8' codec can't decode byte: invalid continuation byte")
            | _ => Raise (UnicodeDecodeError "'utf-8' codec can't decode byte: unexpected end of data")
            end
          else if ((224 <=? b0) && (b0 <=? 239))%N then
            match r0 with
            | b1 :: b2 :: r2 =>
                if is_cont b1 && is_cont b2
                   && (negb (b0 =? 224)%N || (160 <=? b1)%N)
                   && (negb (b0 =? 237)%N || (b1 <=? 159)%N)
                then
                  rbind (utf8_decode_fuel fuel' r2) (fun s =>
                    Ok (((b0 - 224) * 4096 + (b1 - 128) * 64 + (b2 - 128))%N :: s))
                else Raise (UnicodeDecodeError "'utf-8' codec can't decode byte: invalid continuation byte")
            | _ => Raise (UnicodeDecodeError "'utf-8' codec can't decode byte: unexpected end of data")
            end
          else if ((240 <=? b0) && (b0 <=? 244))%N then
            match r0 with
            | b1 :: b2 :: b3 :: r3 =>
                if is_cont b1 && is_cont b2 && is_cont b3
                   && (negb (b0 =? 240)%N || (144 <=? b1)%N)
                   && (negb (b0 =? 244)%N || (b1 <=? 143)%N)
                then
                  rbind (utf8_decode_fuel fuel' r3) (fun s =>
                    Ok (((b0 - 240) * 262144 + (b1 - 128) * 4096
                         + (b2 - 128) * 64 + (b3 - 128))%N :: s))
                else Raise (UnicodeDecodeError "'utf-8' codec can't decode byte: invalid continuation byte")
            | _ => Raise (UnicodeDecodeError "'utf-8' codec can't decode byte: unexpected end of data")
            end
          else Raise (UnicodeDecodeError "'utf-8' codec can't decode byte: invalid start byte")
      end
  end.

Definition utf8_decode (b : bytes) : Res str :=
  utf8_decode_fuel (S (List.length b)) b.

(** [base64.urlsafe_b64decode(v).decode()] *)
Definition b64_text (v : pyval) : Res str :=
  rbind (urlsafe_b64decode v) utf8_decode.

End Codec.

(** ** The message normalizer: [parse_gmail_message] *)

Module Normalizer.
Import Py Codec.

Declare Scope res_scope.
Delimit Scope res_scope with res.
Notation "'let?' x ':=' e 'in' k" := (rbind e (fun x => k))
  (at level 10, x name, e at level 100, k at level 200) : res_scope.
Notation "v '.[' k ']'" := (getitem v (lit k))
  (at level 1, k at level 200, format "v .[ k ]").
Local Open Scope res_scope.

(** The six-field dictionary [parse_gmail_message] returns. *)
Record NormalizedMessage : Type := mkMessage {
  msg_id : pyval;
  msg_from : pyval;
  msg_to : pyval;
  msg_subject : pyval;
  msg_date : pyval;
  msg_body : str
}.

(** The dict comprehension [{h['name']: h['value'] for h in ...}]: the
    items in iteration order; a later item with an equal key replaces an
    earlier one, which [headers_get] accounts for. *)
Fixpoint build_headers (hs : list pyval) : Res (list (pyval * pyval)) :=
  match hs with
  | [] => Ok []
  | h :: rest =>
      let? name := h.["name"] in
      let? value := h.["value"] in
      if hashable name then
        let? items := build_headers rest in
        Ok ((name, value) :: items)
      else
        Raise (TypeError ("unhashable type: '" ++ type_name name ++ "'"))
  end.

(** [headers.get(k, '')]: the value of the last item whose key is [k]. *)
Fixpoint headers_get (k : str) (items : list (pyval * pyval)) : pyval :=
  match items with
  | [] => VStr []
  | (name, value) :: rest =>
      if eq_str name k && negb (existsb (fun nv => eq_str (fst nv) k) rest)
      then value
      else headers_get k rest
  end.

(** The loop over [msg['payload']['parts']]: the body of the first part
    whose [mimeType] is [text/plain], and [""] when the loop ends without
    one. *)
Fixpoint scan_parts (parts : list pyval) : Res str :=
  match parts with
  | [] => Ok []
  | part :: rest =>
      let? mime := part.["mimeType"] in
      if eq_str mime (lit "text/plain") then
        let? b := part.["body"] in
        let? data := b.["data"] in
        b64_text data
      else scan_parts rest
  end.

(** Lines 98-105: the body before [strip]. *)
Definition extract_body (msg : pyval) : Res str :=
  let? payload := msg.["payload"] in
  let? has_parts := contains (lit "parts") payload in
  if has_parts then
    let? parts := payload.["parts"] in
    let? parts := iter parts in
    scan_parts parts
  else
    let? has_body := contains (lit "body") payload in
    if has_body then
      let? b := payload.["body"] in
      let? has_data := contains (lit "data") b in
      if has_data then
        let? data := b.["data"] in
        b64_text data
      else Ok []
    else Ok [].

Definition parse_gmail_message (msg : pyval) : Res NormalizedMessage :=
  let? payload := msg.["payload"] in
  let? hs := payload.["headers"] in
  let? hs := iter hs in
  let? headers := build_headers hs in
  let? body := extract_body msg in
  let? id := msg.["id"] in
  Ok {| msg_id := id;
        msg_from := headers_get (lit "From") headers;
        msg_to := headers_get (lit "To") headers;
        msg_subject := headers_get (lit "Subject") headers;
        msg_date := headers_get (lit "Date") headers;
        msg_body := strip body |}.

(** *** Shapes of raw messages *)

Definition is_ok {A} (r : Res A) : bool :=
  match r with Ok _ => true | Raise _ => false end.

(** A header entry is a name/value pair with a string name. *)
Definition header_ok (h : pyval) : bool :=
  match h with
  | VDict d =>
      match dict_get (lit "name") d, dict_get (lit "value") d with
      | Some (VStr _), Some _ => true
      | _, _ => false
      end
  | _ => false
  end.

(** An entry of the parts array has a [mimeType]; when that is
    [text/plain], its body carries data that is URL-safe base64 of UTF-8
    text. *)
Definition part_ok (part : pyval) : bool :=
  match part with
  | VDict d =>
      match dict_get (lit "mimeType") d with
      | Some mime =>
          if eq_str mime (lit "text/plain") then
            match dict_get (lit "body") d with
            | Some (VDict b) =>
                match dict_get (lit "data") b with
                | Some data => is_ok (b64_text data)
                | None => false
                end
            | _ => false
            end
          else true
      | None => false
      end
  | _ => false
  end.

(** The message carries an [id] and a payload with a headers list of
    name/value pairs, and every entry of the parts array, when there is
    one, satisfies [part_ok]. *)
Definition parts_precondition (msg : pyval) : bool :=
  match msg with
  | VDict m =>
      match dict_get (lit "id") m, dict_get (lit "payload") m with
      | Some _, Some (VDict pl) =>
          match dict_get (lit "headers") pl with
          | Some (VList hs) =>
              forallb header_ok hs &&
              match dict_get (lit "parts") pl with
              | None => true
              | Some (VList parts) => forallb part_ok parts
              | Some _ => false
              end
          | _ => false
          end
      | _, _ => false
      end
  | _ => false
  end.

(** When the payload has no parts array, its direct body, if any, is a
    dictionary whose data, if any, is URL-safe base64 of UTF-8 text. *)
Definition single_part_ok (msg : pyval) : bool :=
  match msg with
  | VDict m =>
      match dict_get (lit "payload") m with
      | Some (VDict pl) =>
          match dict_get (lit "parts") pl with
          | Some _ => true
          | None =>
              match dict_get (lit "body") pl with
              | None => true
              | Some (VDict b) =>
                  match dict_get (lit "data") b with
                  | None => true
                  | Some data => is_ok (b64_text data)
                  end
              | Some _ => false
              end
          end
      | _ => false
      end
  | _ => false
  end.

(** [part['mimeType'] == 'text/plain'], the test of the scan. *)
Definition mime_is_plain (part : pyval) : Res bool :=
  let? mime := part.["mimeType"] in Ok (eq_str mime (lit "text/plain")).


End Normalizer.

(** ** The process and what lies outside it *)

Module Server.
Import Py Codec Normalizer.

(** [google.oauth2.credentials.Credentials] as the program observes it:
    the properties [valid], [expired] and [refresh_token] it reads, and
    the text [to_json()] yields. *)
Record Credentials : Type := mkCredentials {
  valid : bool;
  expired : bool;
  refresh_token : option str;
  to_json : str
}.

(** The handle [build('gmail', 'v1', credentials=creds)] returns. *)
Record Service : Type := mkService {
  service_id : N;
  service_credentials : Credentials
}.

(** A request of the Gmail API, as built before [.execute()]. *)
Inductive request : Type :=
| ReqList (q : str) (maxResults : option pyval)
| ReqGet (id : pyval)
| ReqModify (id : pyval) (removeLabelIds : list str)
| ReqSend (raw : str).

(** The calls the program makes across the process boundary, in the
    order it makes them.  [EvExecute r] is the call [.execute()] on the
    request [r], with whatever the client library does inside it. *)
Inductive event : Type :=
| EvRefresh
| EvConsent
| EvWriteToken (data : str)
| EvBuild
| EvExecute (r : request).

(** The injected constants of lines 39-43. *)
Record Config : Type := mkConfig {
  EMAIL_ADDRESS : pyval;
  MAX_EMAILS : Z
}.

(** Everything the process calls but does not contain, over a state [X]
    of the outside world: the token parser, the authorization server
    ([refresh]), the interactive consent flow, the API client factory,
    the Gmail API itself, the MIME encoder, two library functions on
    text ([str.lower] and [repr] of a container), and [str(creds_path)],
    the place of the client-secrets file under the installation
    directory (lines 60-62). *)
Record Externals (X : Type) : Type := mkExternals {
  creds_path : str;
  from_authorized_user_file : X -> str -> Res Credentials;
  refresh : X -> Credentials -> Res Credentials * X;
  run_local_server : X -> Res Credentials * X;
  build : X -> Credentials -> Res Service * X;
  execute : X -> Service -> request -> Res pyval * X;
  mime_raw : X -> pyval -> pyval -> pyval -> pyval -> Res str * X;
  str_lower : str -> str;
  repr : pyval -> str
}.

Record World (X : Type) : Type := mkWorld {
  gmail_service : option Service;   (* the global _gmail_service *)
  token_file : option str;          (* token_path; None when absent *)
  token_writable : bool;            (* whether write_text can succeed *)
  credentials_file : bool;          (* creds_path.exists() *)
  outside : X;
  log : list event
}.

(** [mcp.types.TextContent(type="text", text=...)] *)
Record TextContent : Type := mkTextContent {
  type_ : str;
  text : str
}.

Definition text_content (t : str) : TextContent :=
  {| type_ := lit "text"; text := t |}.

(** *** The token file under [write_text]

    [Path.write_text] opens the file with mode ['w'], which creates it or
    cuts it to length zero, writes the text and closes the file.  The
    steps below are what the file holds between them; a process that
    stops after [k] steps leaves [crash_after k]. *)
Inductive file_op : Type :=
| FOpenTruncate
| FAppend (c : N).

Definition apply_op (file : option str) (op : file_op) : option str :=
  match op with
  | FOpenTruncate => Some []
  | FAppend c =>
      match file with
      | Some content => Some (content ++ [c])
      | None => Some [c]
      end
  end.

Definition write_text_ops (data : str) : list file_op :=
  FOpenTruncate :: map FAppend data.

Definition crash_after (k : nat) (data : str) (file : option str) : option str :=
  fold_left apply_op (firstn k (write_text_ops data)) file.

Declare Scope m_scope.
Delimit Scope m_scope with m.

Section Program.

Variable X : Type.
Variable E : Externals X.
Variable cfg : Config.

(** State and exceptions. *)
Definition M (A : Type) : Type := World X -> Res A * World X.

Definition ret {A} (a : A) : M A := fun w => (Ok a, w).
Definition raise {A} (e : exn) : M A := fun w => (Raise e, w).
Definition bind {A B} (m : M A) (k : A -> M B) : M B :=
  fun w =>
    match m w with
    | (Ok a, w') => k a w'
    | (Raise e, w') => (Raise e, w')
    end.
Definition lift {A} (r : Res A) : M A := fun w => (r, w).

(** [try: body except Exception as e: handler(e)] *)
Definition try_except {A} (body : M A) (handler : exn -> M A) : M A :=
  fun w =>
    match body w with
    | (Raise (Exc c m), w') => handler (Exc c m) w'
    | r => r
    end.

Notation "x <- e ;; k" := (bind e (fun x => k))
  (at level 61, e at next level, right associativity) : m_scope.
Notation "e ;; k" := (bind e (fun _ => k))
  (at level 61, right associativity) : m_scope.
Local Open Scope m_scope.

Definition set_service (s : Service) (w : World X) : World X :=
  {| gmail_service := Some s; token_file := token_file w;
     token_writable := token_writable w;
     credentials_file := credentials_file w;
     outside := outside w; log := log w |}.

Definition set_token (data : str) (w : World X) : World X :=
  {| gmail_service := gmail_service w; token_file := Some data;
     token_writable := token_writable w;
     credentials_file := credentials_file w;
     outside := outside w; log := log w |}.

Definition step_outside (ev : event) (x : X) (w : World X) : World X :=
  {| gmail_service := gmail_service w; token_file := token_file w;
     token_writable := token_writable w;
     credentials_file := credentials_file w;
     outside := x; log := log w ++ [ev] |}.

(** A call that leaves the process: the outside world answers and moves
    on, and the call is logged whether it returns or raises. *)
Definition call_outside {A} (ev : event) (f : X -> Res A * X) : M A :=
  fun w => let (r, x) := f (outside w) in (r, step_outside ev x w).

(** A library call whose result may differ from one call to the next (the
    MIME boundary is drawn at random) but which does not leave the
    process. *)
Definition call_library {A} (f : X -> Res A * X) : M A :=
  fun w =>
    let (r, x) := f (outside w) in
    (r, {| gmail_service := gmail_service w; token_file := token_file w;
           token_writable := token_writable w;
           credentials_file := credentials_file w;
           outside := x; log := log w |}).

(** [token_path.write_text(data)], run to completion. *)
Definition write_text (data : str) : M unit :=
  fun w =>
    if token_writable w
    then (Ok tt, set_token data (step_outside (EvWriteToken data) (outside w) w))
    else (Raise (Exc "PermissionError" (lit "[Errno 13] Permission denied")), w).

(** Lines 64-66: [creds] is [None] when the token file is absent. *)
Definition load_token : M (option Credentials) :=
  fun w =>
    match token_file w with
    | None => (Ok None, w)
    | Some content =>
        match from_authorized_user_file E (outside w) content with
        | Ok c => (Ok (Some c), w)
        | Raise e => (Raise e, w)
        end
    end.

Definition str_truthy (s : option str) : bool :=
  match s with Some (_ :: _) => true | _ => false end.

Definition nl : str := [10%N].

(** The message of lines 76-77. *)
Definition credentials_missing : str :=
  lit "credentials.json not found at " ++ creds_path E ++ nl
  ++ lit "Download from Google Cloud Console: https://console.cloud.google.com/apis/credentials".

(** Lines 74-82: the consent flow needs the client-secrets file. *)
Definition consent : M Credentials :=
  fun w =>
    if credentials_file w
    then call_outside EvConsent (run_local_server E) w
    else (Raise (Exc "FileNotFoundError" credentials_missing), w).

(** Lines 70-86: refresh, or run the consent flow, then save the token. *)
Definition acquire (creds : option Credentials) : M Credentials :=
  c <- match creds with
       | Some c =>
           if expired c && str_truthy (refresh_token c)
           then call_outside EvRefresh (fun x => refresh E x c)
           else consent
       | None => consent
       end ;;
  write_text (to_json c) ;;
  ret c.

Definition get_gmail_service : M Service :=
  fun w =>
    match gmail_service w with
    | Some s => (Ok s, w)
    | None =>
        (creds <- load_token ;;
         creds <- match creds with
                  | Some c => if valid c then ret c else acquire creds
                  | None => acquire creds
                  end ;;
         s <- call_outside EvBuild (fun x => build E x creds) ;;
         (fun w' => (Ok s, set_service s w'))) w
    end.

(** [service.users().messages().<request>.execute()] *)
Definition run (service : Service) (r : request) : M pyval :=
  call_outside (EvExecute r) (fun x => execute E x service r).

(** [f"{v}"] *)
Definition fmt (v : pyval) : str :=
  match v with
  | VStr s => s
  | VInt z => str_of_Z z
  | VBool true => lit "True"
  | VBool false => lit "False"
  | VNone => lit "None"
  | _ => repr E v
  end.

(** [v.lower()] *)
Definition lower (v : pyval) : Res str :=
  match v with
  | VStr s => Ok (str_lower E s)
  | _ => Raise (AttributeError
                  ("'" ++ type_name v ++ "' object has no attribute 'lower'"))
  end.

Definition one (t : str) : list TextContent := [text_content t].

(** *** The four tools *)

(** Lines 238-256, the body of the [try] of [send_email_tool]. *)
Definition send_email_body (to subject body : pyval) : M (list TextContent) :=
  service <- get_gmail_service ;;
  raw <- call_library
           (fun x => mime_raw E x (EMAIL_ADDRESS cfg) to subject body) ;;
  run service (ReqSend raw) ;;
  ret (one (lit "Email sent successfully to " ++ fmt to ++ nl
            ++ lit "Subject: " ++ fmt subject)).

Definition send_email_tool (args : pyval) : M (list TextContent) :=
  to <- lift args.["to"] ;;
  subject <- lift args.["subject"] ;;
  body <- lift args.["body"] ;;
  try_except (send_email_body to subject body)
    (fun e => ret (one (lit "[ERROR] Failed to send email: " ++ exn_str e))).

(** The loop of lines 295-301 and 349-355. *)
Fixpoint fetch_all (service : Service) (messages : list pyval)
    : M (list NormalizedMessage) :=
  match messages with
  | [] => ret []
  | msg :: rest =>
      id <- lift msg.["id"] ;;
      full_msg <- run service (ReqGet id) ;;
      email <- lift (parse_gmail_message full_msg) ;;
      emails <- fetch_all service rest ;;
      ret (email :: emails)
  end.

(** Lines 305-310: one block per email, numbered from [i]. *)
Fixpoint format_inbox (i : Z) (emails : list NormalizedMessage) : str :=
  match emails with
  | [] => []
  | e :: rest =>
      lit "--- Email " ++ str_of_Z i ++ lit " ---" ++ nl
      ++ lit "From: " ++ fmt (msg_from e) ++ nl
      ++ lit "Subject: " ++ fmt (msg_subject e) ++ nl
      ++ lit "Date: " ++ fmt (msg_date e) ++ nl
      ++ lit "Body:" ++ nl ++ slice_to 200 (msg_body e) ++ lit "..." ++ nl ++ nl
      ++ format_inbox (i + 1) rest
  end.

(** Lines 359-363. *)
Fixpoint format_search (i : Z) (emails : list NormalizedMessage) : str :=
  match emails with
  | [] => []
  | e :: rest =>
      lit "--- Email " ++ str_of_Z i ++ lit " ---" ++ nl
      ++ lit "From: " ++ fmt (msg_from e) ++ nl
      ++ lit "Subject: " ++ fmt (msg_subject e) ++ nl
      ++ lit "Date: " ++ fmt (msg_date e) ++ nl ++ nl
      ++ format_search (i + 1) rest
  end.

(** Lines 275-312, the body of the [try] of [read_inbox_tool]. *)
Definition read_inbox_body (mailbox limit unread_only : pyval)
    : M (list TextContent) :=
  service <- get_gmail_service ;;
  mb <- lift (lower mailbox) ;;
  let query := lit "in:" ++ mb in
  let query := if truthy unread_only then query ++ lit " is:unread" else query in
  results <- run service (ReqList query (Some limit)) ;;
  messages <- lift (get results (lit "messages") (VList [])) ;;
  if negb (truthy messages) then ret (one (lit "No emails found"))
  else
    items <- lift (iter messages) ;;
    emails <- fetch_all service items ;;
    ret (one (lit "Found " ++ str_of_Z (Z.of_nat (List.length emails))
              ++ lit " email(s):" ++ nl ++ nl ++ format_inbox 1 emails)).

Definition read_inbox_tool (args : pyval) : M (list TextContent) :=
  mailbox <- lift (get args (lit "mailbox") (VStr (lit "INBOX"))) ;;
  limit <- lift (get args (lit "limit") (VInt 10)) ;;
  limit <- lift (min_int limit (MAX_EMAILS cfg)) ;;
  unread_only <- lift (get args (lit "unread_only") (VBool false)) ;;
  try_except (read_inbox_body mailbox limit unread_only)
    (fun e => ret (one (lit "[ERROR] Failed to read inbox: " ++ exn_str e))).

(** Lines 331-365, the body of the [try] of [search_emails_tool]. *)
Definition search_emails_body (query mailbox limit : pyval)
    : M (list TextContent) :=
  service <- get_gmail_service ;;
  mb <- lift (lower mailbox) ;;
  let search_query := lit "in:" ++ mb ++ lit " subject:" ++ fmt query in
  results <- run service (ReqList search_query (Some limit)) ;;
  messages <- lift (get results (lit "messages") (VList [])) ;;
  if negb (truthy messages)
  then ret (one (lit "No emails found matching '" ++ fmt query ++ lit "'"))
  else
    items <- lift (iter messages) ;;
    emails <- fetch_all service items ;;
    ret (one (lit "Found " ++ str_of_Z (Z.of_nat (List.length emails))
              ++ lit " email(s) matching '" ++ fmt query ++ lit "':"
              ++ nl ++ nl ++ format_search 1 emails)).

Definition search_emails_tool (args : pyval) : M (list TextContent) :=
  query <- lift args.["query"] ;;
  mailbox <- lift (get args (lit "mailbox") (VStr (lit "INBOX"))) ;;
  limit <- lift (get args (lit "limit") (VInt 10)) ;;
  limit <- lift (min_int limit (MAX_EMAILS cfg)) ;;
  try_except (search_emails_body query mailbox limit)
    (fun e => ret (one (lit "[ERROR] Failed to search: " ++ exn_str e))).

(** The loop of lines 394-399. *)
Fixpoint modify_all (service : Service) (messages : list pyval) : M unit :=
  match messages with
  | [] => ret tt
  | msg :: rest =>
      id <- lift msg.["id"] ;;
      run service (ReqModify id [lit "UNREAD"]) ;;
      modify_all service rest
  end.

(** Lines 383-404, the body of the [try] of [mark_as_read_tool]. *)
Definition mark_as_read_body (subject mailbox : pyval) : M (list TextContent) :=
  service <- get_gmail_service ;;
  mb <- lift (lower mailbox) ;;
  let query := lit "in:" ++ mb ++ lit " is:unread subject:" ++ fmt subject in
  results <- run service (ReqList query None) ;;
  messages <- lift (get results (lit "messages") (VList [])) ;;
  if negb (truthy messages)
  then ret (one (lit "No unread emails found with subject '"
                 ++ fmt subject ++ lit "'"))
  else
    items <- lift (iter messages) ;;
    modify_all service items ;;
    ret (one (lit "Marked " ++ str_of_Z (Z.of_nat (List.length items))
              ++ lit " email(s) as read")).

Definition mark_as_read_tool (args : pyval) : M (list TextContent) :=
  subject <- lift args.["subject"] ;;
  mailbox <- lift (get args (lit "mailbox") (VStr (lit "INBOX"))) ;;
  try_except (mark_as_read_body subject mailbox)
    (fun e => ret (one (lit "[ERROR] Failed to mark as read: " ++ exn_str e))).

(** Lines 213-226: dispatch by name. *)
Definition call_tool (name : str) (arguments : pyval) : M (list TextContent) :=
  if str_eqb name (lit "send_email") then send_email_tool arguments
  else if str_eqb name (lit "read_inbox") then read_inbox_tool arguments
  else if str_eqb name (lit "search_emails") then search_emails_tool arguments
  else if str_eqb name (lit "mark_as_read") then mark_as_read_tool arguments
  else raise (ValueError (lit "Unknown tool: " ++ name)).

(** *** Observations on a run *)

(** The authorization round-trips in a stretch of the log: refresh calls
    to the authorization server and interactive consent flows. *)
Fixpoint auth_round_trips (evs : list event) : nat :=
  match evs with
  | [] => O
  | EvRefresh :: rest => S (auth_round_trips rest)
  | EvConsent :: rest => S (auth_round_trips rest)
  | _ :: rest => auth_round_trips rest
  end.

(** The events of the authorizer: everything but a Gmail API request. *)
Definition auth_event (ev : event) : Prop :=
  match ev with EvExecute _ => False | _ => True end.

(** Every listing request carries a result limit that satisfies [Q]. *)
Definition listing_with (Q : option pyval -> Prop) (ev : event) : Prop :=
  match ev with EvExecute (ReqList _ m) => Q m | _ => True end.

Definition no_listing : event -> Prop := listing_with (fun _ => False).

(** The limit [read_inbox] and [search_emails] compute from [args]:
    [min(args.get("limit", 10), MAX_EMAILS)]. *)
Definition capped_limit (args : pyval) (m : option pyval) : Prop :=
  exists v lim,
    get args (lit "limit") (VInt 10) = Ok v /\
    min_int v (MAX_EMAILS cfg) = Ok lim /\ m = Some lim.

(** The label-removal calls in a stretch of the log. *)
Fixpoint modify_calls (evs : list event) : list pyval :=
  match evs with
  | [] => []
  | EvExecute (ReqModify id _) :: rest => id :: modify_calls rest
  | _ :: rest => modify_calls rest
  end.

(** The result limits of the listing calls in a stretch of the log. *)
Fixpoint list_limits (evs : list event) : list (option pyval) :=
  match evs with
  | [] => []
  | EvExecute (ReqList _ m) :: rest => m :: list_limits rest
  | _ :: rest => list_limits rest
  end.

(** [n] sequential calls of [get_gmail_service] in one process: the
    outcomes in order and the world they leave. *)
Fixpoint sessions (n : nat) (w : World X) : list (Res Service) * World X :=
  match n with
  | O => ([], w)
  | S n' =>
      let (r, w1) := get_gmail_service w in
      let (rs, w2) := sessions n' w1 in
      (r :: rs, w2)
  end.

(** The marker every [except] clause puts in front of its message. *)
Definition is_error_text (t : str) : bool := is_prefix (lit "[ERROR]") t.

Definition is_digit (c : N) : bool := ((48 <=? c) && (c <=? 57))%N.

(** Every event [m] adds to the log satisfies [P]. *)
Definition emits {A} (P : event -> Prop) (m : M A) : Prop :=
  forall w r w', m w = (r, w') ->
    exists evs, log w' = log w ++ evs /\ Forall P evs.

(** [m] makes at most [n] authorization round-trips. *)
Definition round_trips_at_most {A} (n : nat) (m : M A) : Prop :=
  forall w r w', m w = (r, w') ->
    exists evs, log w' = log w ++ evs /\ (auth_round_trips evs <= n)%nat.

(** The numeric value of an argument that [min] accepts. *)
Definition int_value (v : pyval) : option Z :=
  match v with
  | VInt z => Some z
  | VBool b => Some (if b then 1 else 0)%Z
  | _ => None
  end.

(** The answers of the Gmail API to the requests [rs], made one after
    the other from the state [x], and the state they leave; [None] when
    one of them is refused. *)
Fixpoint answers (service : Service) (rs : list request) (x : X)
    : option (list pyval * X) :=
  match rs with
  | [] => Some ([], x)
  | r :: rest =>
      match execute E x service r with
      | (Ok a, x1) =>
          match answers service rest x1 with
          | Some (others, x') => Some (a :: others, x')
          | None => None
          end
      | (Raise _, _) => None
      end
  end.

(** The label-removal request of lines 395-399. *)
Definition removal (id : pyval) : request := ReqModify id [lit "UNREAD"].

(** The log entries of one label-removal call per identifier. *)
Definition modify_events (ids : list pyval) : list event :=
  map (fun id => EvExecute (removal id)) ids.

(** The query [mark_as_read] sends. *)
Definition unread_query (subject : pyval) (mailbox : str) : str :=
  lit "in:" ++ str_lower E mailbox ++ lit " is:unread subject:" ++ fmt subject.

(** [msg['id']] is [id]: all the loops read of a listing entry, which
    may hold any other key ([threadId], ...). *)
Definition has_id (msg id : pyval) : Prop := getitem msg (lit "id") = Ok id.

End Program.

Notation "x <- e ;; k" := (bind e (fun x => k))
  (at level 61, e at next level, right associativity) : m_scope.
Notation "e ;; k" := (bind e (fun _ => k))
  (at level 61, right associativity) : m_scope.

End Server.

(** ** A concrete outside world *)

Module Fixture.
Import Py Codec Normalizer Server.

Definition ascii_lower (s : str) : str :=
  map (fun c => if ((65 <=? c) && (c <=? 90))%N then (c + 32)%N else c) s.

Definition stored_token : str := lit "{'token': 'old', 'refresh_token': 'r1'}".
Definition fresh_token : str := lit "{'token': 'new', 'refresh_token': 'r1'}".

Definition good_creds : Credentials :=
  {| valid := true; expired := false;
     refresh_token := Some (lit "r1"); to_json := fresh_token |}.

Definition expired_creds : Credentials :=
  {| valid := false; expired := true;
     refresh_token := Some (lit "r1"); to_json := stored_token |}.

Definition header (name value : string) : pyval :=
  VDict [(lit "name", VStr (lit name)); (lit "value", VStr (lit value))].

(** A single-part message whose body data is base64 of "hello". *)
Definition plain_message (id : pyval) : pyval :=
  VDict [(lit "id", id);
         (lit "payload",
          VDict [(lit "headers",
                  VList [header "From" "ann@example.org";
                         header "Subject" "Invoice"]);
                 (lit "body", VDict [(lit "data", VStr (lit "aGVsbG8="))])])].

(** A single-part message in Latin-1: the octet 0xE9 alone. *)
Definition latin1_message : pyval :=
  VDict [(lit "id", VStr (lit "m1"));
         (lit "payload",
          VDict [(lit "headers", VList [header "Subject" "Caf"]);
                 (lit "body", VDict [(lit "data", VStr (lit "6Q=="))])])].

(** A message with neither parts nor body data. *)
Definition empty_message : pyval :=
  VDict [(lit "id", VStr (lit "m2"));
         (lit "payload", VDict [(lit "headers", VList [])])].

(** A multipart message: an HTML part, then two plain-text parts. *)
Definition multipart_message : pyval :=
  VDict [(lit "id", VStr (lit "m3"));
         (lit "payload",
          VDict [(lit "headers", VList [header "To" "bob@example.org"]);
                 (lit "parts",
                  VList [VDict [(lit "mimeType", VStr (lit "text/html"));
                                (lit "body", VDict [])];
                         VDict [(lit "mimeType", VStr (lit "text/plain"));
                                (lit "body",
                                 VDict [(lit "data", VStr (lit "IGhlbGxvIAo="))])];
                         VDict [(lit "mimeType", VStr (lit "text/plain"));
                                (lit "body",
                                 VDict [(lit "data", VStr (lit "d29ybGQ="))])]])])].

(** A multipart message whose plain-text part has a body without data. *)
Definition dataless_message : pyval :=
  VDict [(lit "id", VStr (lit "m4"));
         (lit "payload",
          VDict [(lit "headers", VList []);
                 (lit "parts",
                  VList [VDict [(lit "mimeType", VStr (lit "text/plain"));
                                (lit "body", VDict [(lit "size", VInt 0)])]])])].

(** A multipart message whose only plain text sits one level down,
    inside a [multipart/alternative] part. *)
Definition nested_message : pyval :=
  VDict [(lit "id", VStr (lit "m5"));
         (lit "payload",
          VDict [(lit "headers", VList []);
                 (lit "parts",
                  VList [VDict [(lit "mimeType", VStr (lit "multipart/alternative"));
                                (lit "parts",
                                 VList [VDict [(lit "mimeType", VStr (lit "text/plain"));
                                               (lit "body",
                                                VDict [(lit "data", VStr (lit "aGVsbG8="))])]])]])])].


(** The outside world counts the calls it has answered.  [parsed] is what
    the token file parses to, [refreshed] the answer of the authorization
    server, [listing] the answer to every listing call; a request in
    [fails] is refused. *)
Definition outside_world (parsed refreshed : Res Credentials)
    (listing : pyval) (fails : request -> bool) : Externals nat :=
  {| creds_path := lit "/srv/mcp-server-email/credentials.json";
     from_authorized_user_file := fun _ _ => parsed;
     refresh := fun x _ => (refreshed, S x);
     run_local_server := fun x => (Ok good_creds, S x);
     build := fun x c =>
       (Ok {| service_id := 1; service_credentials := c |}, x);
     execute := fun x _ r =>
       if fails r
       then (Raise (Exc "HttpError" (lit "<HttpError 503>")), S x)
       else
         (match r with
          | ReqList _ _ => Ok listing
          | ReqGet id => Ok (plain_message id)
          | ReqModify _ _ => Ok (VDict [])
          | ReqSend _ => Ok (VDict [(lit "id", VStr (lit "s1"))])
          end, S x);
     mime_raw := fun x _ _ _ _ => (Ok (lit "cmF3"), x);
     str_lower := ascii_lower;
     repr := fun _ => lit "<object>" |}.

(** What the normalizer makes of [plain_message id]. *)
Definition plain_email (id : pyval) : NormalizedMessage :=
  {| msg_id := id; msg_from := VStr (lit "ann@example.org");
     msg_to := VStr []; msg_subject := VStr (lit "Invoice");
     msg_date := VStr []; msg_body := lit "hello" |}.

Definition never (r : request) : bool := false.

(** A listing entry as the Gmail API returns it. *)
Definition entry (id : string) : pyval :=
  VDict [(lit "id", VStr (lit id)); (lit "threadId", VStr (lit (String.append "t" id)))].

(** The response to a listing call: the key [messages] is left out when
    nothing matches. *)
Definition listing_of (ids : list string) : pyval :=
  match ids with
  | [] => VDict [(lit "resultSizeEstimate", VInt 0)]
  | _ => VDict [(lit "messages", VList (map entry ids));
                (lit "resultSizeEstimate", VInt (Z.of_nat (List.length ids)))]
  end.

Definition config : Config :=
  {| EMAIL_ADDRESS := VStr (lit "office@example.org"); MAX_EMAILS := 50 |}.

(** A process that has not authorized yet, with a token file on disk. *)
Definition start : World nat :=
  {| gmail_service := None; token_file := Some stored_token;
     token_writable := true; credentials_file := true;
     outside := O; log := [] |}.

(** An outside world with a valid stored token and a mailbox that lists
    [ids] and refuses nothing. *)
Definition reliable (ids : list string) : Externals nat :=
  outside_world (Ok good_creds) (Ok good_creds) (listing_of ids) never.


(** The stored token has expired and the authorization server rejects
    the refresh token. *)
Definition refresh_rejected : Externals nat :=
  outside_world (Ok expired_creds)
    (Raise (Exc "RefreshError" (lit "invalid_grant")))
    (listing_of []) never.


Definition small_config : Config :=
  {| EMAIL_ADDRESS := VStr (lit "office@example.org"); MAX_EMAILS := 2 |}.

Definition the_service : Service :=
  {| service_id := 1; service_credentials := good_creds |}.

(** [start] after the first successful [get_gmail_service]. *)
Definition authorized : World nat :=
  {| gmail_service := Some the_service; token_file := Some stored_token;
     token_writable := true; credentials_file := true;
     outside := O; log := [EvBuild] |}.

Definition args_of (kvs : list (string * pyval)) : pyval :=
  VDict (map (fun kv => (lit (fst kv), snd kv)) kvs).

(** *** A mailbox served in pages

    The state of this outside world is the list of the unread messages
    that match, by identifier.  A listing call answers with one page: at
    most [maxResults] entries, 100 when the request carries none, and a
    [nextPageToken] when more remain.  A label removal takes the message
    off the list. *)
Definition page_size (m : option pyval) : nat :=
  match m with
  | Some (VInt z) => Z.to_nat z
  | _ => 100
  end.

Definition page_entry (id : str) : pyval :=
  VDict [(lit "id", VStr id); (lit "threadId", VStr id)].

Definition page (m : option pyval) (unread : list str) : pyval :=
  VDict (match firstn (page_size m) unread with
         | [] => []
         | ids => [(lit "messages", VList (map page_entry ids))]
         end
         ++ (if (page_size m <? List.length unread)%nat
             then [(lit "nextPageToken", VStr (lit "page-2"))]
             else [])
         ++ [(lit "resultSizeEstimate",
              VInt (Z.of_nat (List.length unread)))]).

Definition paged : Externals (list str) :=
  {| creds_path := lit "/srv/mcp-server-email/credentials.json";
     from_authorized_user_file := fun _ _ => Ok good_creds;
     refresh := fun x _ => (Ok good_creds, x);
     run_local_server := fun x => (Ok good_creds, x);
     build := fun x c =>
       (Ok {| service_id := 1; service_credentials := c |}, x);
     execute := fun x _ r =>
       match r with
       | ReqList _ m => (Ok (page m x), x)
       | ReqGet id => (Ok (plain_message id), x)
       | ReqModify id _ =>
           (Ok (VDict [(lit "id", id)]),
            filter (fun i => negb (eq_str id i)) x)
       | ReqSend _ => (Ok (VDict [(lit "id", VStr (lit "s1"))]), x)
       end;
     mime_raw := fun x _ _ _ _ => (Ok (lit "cmF3"), x);
     str_lower := ascii_lower;
     repr := fun _ => lit "<object>" |}.

(** The identifiers "1", ..., "n". *)
Definition numbered (n : nat) : list str :=
  map (fun k => str_of_Z (Z.of_nat k)) (seq 1 n).

(** A process that has not authorized yet, in front of the mailbox
    [unread]. *)
Definition mailbox_of (unread : list str) : World (list str) :=
  {| gmail_service := None; token_file := Some stored_token;
     token_writable := true; credentials_file := true;
     outside := unread; log := [] |}.

End Fixture.

(** ** The advertised tools: [list_tools] *)

Module Registry.
Import Py Server.

(** [mcp.types.Tool(name=..., description=..., inputSchema=...)] *)
Record Tool : Type := mkTool {
  tool_name : str;
  tool_description : str;
  inputSchema : pyval
}.

Definition s (text : string) : pyval := VStr (lit text).

(** Lines 117-210.  The two descriptions that quote [MAX_EMAILS] are
    f-strings. *)
Definition list_tools (cfg : Config) : list Tool :=
  [ {| tool_name := lit "send_email";
       tool_description := lit "Send an email to one or more recipients";
       inputSchema :=
         VDict
           [(lit "type", s "object");
            (lit "properties",
             VDict
               [(lit "to",
                 VDict [(lit "type", s "string");
                        (lit "description",
                         s "Recipient email address (or comma-separated list)")]);
                (lit "subject",
                 VDict [(lit "type", s "string");
                        (lit "description", s "Email subject line")]);
                (lit "body",
                 VDict [(lit "type", s "string");
                        (lit "description", s "Email body (plain text)")])]);
            (lit "required", VList [s "to"; s "subject"; s "body"])] |};
    {| tool_name := lit "read_inbox";
       tool_description := lit "Read recent emails from inbox";
       inputSchema :=
         VDict
           [(lit "type", s "object");
            (lit "properties",
             VDict
               [(lit "mailbox",
                 VDict [(lit "type", s "string");
                        (lit "description",
                         s "Mailbox to read from (default: INBOX)");
                        (lit "default", s "INBOX")]);
                (lit "limit",
                 VDict [(lit "type", s "integer");
                        (lit "description",
                         VStr (lit "Number of emails to retrieve (max "
                               ++ str_of_Z (MAX_EMAILS cfg) ++ lit ")"));
                        (lit "default", VInt 10)]);
                (lit "unread_only",
                 VDict [(lit "type", s "boolean");
                        (lit "description", s "Only fetch unread emails");
                        (lit "default", VBool false)])])] |};
    {| tool_name := lit "search_emails";
       tool_description := lit "Search emails by criteria";
       inputSchema :=
         VDict
           [(lit "type", s "object");
            (lit "properties",
             VDict
               [(lit "query",
                 VDict [(lit "type", s "string");
                        (lit "description",
                         s "Search query (subject, from, or text)")]);
                (lit "mailbox",
                 VDict [(lit "type", s "string");
                        (lit "description",
                         s "Mailbox to search (default: INBOX)");
                        (lit "default", s "INBOX")]);
                (lit "limit",
                 VDict [(lit "type", s "integer");
                        (lit "description",
                         VStr (lit "Max results (max "
                               ++ str_of_Z (MAX_EMAILS cfg) ++ lit ")"));
                        (lit "default", VInt 10)])]);
            (lit "required", VList [s "query"])] |};
    {| tool_name := lit "mark_as_read";
       tool_description := lit "Mark specific emails as read by subject";
       inputSchema :=
         VDict
           [(lit "type", s "object");
            (lit "properties",
             VDict
               [(lit "subject",
                 VDict [(lit "type", s "string");
                        (lit "description",
                         s "Subject line of emails to mark as read")]);
                (lit "mailbox",
                 VDict [(lit "type", s "string");
                        (lit "description", s "Mailbox containing the emails");
                        (lit "default", s "INBOX")])]);
            (lit "required", VList [s "subject"])] |} ].



Definition declared_default (t : Tool) (field : str) : option pyval :=
  match inputSchema t with
  | VDict schema =>
      match dict_get (lit "properties") schema with
      | Some (VDict props) =>
          match dict_get field props with
          | Some (VDict p) => dict_get (lit "default") p
          | _ => None
          end
      | _ => None
      end
  | _ => None
  end.


End Registry.

(** ** More observations on a run *)

Module Observe.
Import Py Normalizer Server.

(** The requests [send_email] builds. *)
Definition send_request (r : request) : Prop :=
  match r with ReqSend _ => True | _ => False end.

(** The requests [read_inbox] and [search_emails] build: listings with a
    result limit and full-message fetches. *)
Definition read_request (r : request) : Prop :=
  match r with
  | ReqList _ (Some _) => True
  | ReqGet _ => True
  | _ => False
  end.

(** The requests [mark_as_read] builds: listings without a result limit
    and removals of the label UNREAD. *)
Definition mark_request (r : request) : Prop :=
  match r with
  | ReqList _ None => True
  | ReqModify _ labels => labels = [lit "UNREAD"]
  | _ => False
  end.

(** The requests of the tool called [name]. *)
Definition tool_request (name : str) : request -> Prop :=
  if str_eqb name (lit "send_email") then send_request
  else if str_eqb name (lit "read_inbox") then read_request
  else if str_eqb name (lit "search_emails") then read_request
  else if str_eqb name (lit "mark_as_read") then mark_request
  else fun _ => False.

(** The call [.execute()] on a request that satisfies [Q]. *)
Definition executes (Q : request -> Prop) (ev : event) : Prop :=
  match ev with EvExecute r => Q r | _ => False end.

(** The value of the last header entry named exactly [k], and [''] when
    there is none. *)
Definition last_header (k : str) (hs : list pyval) : pyval :=
  match find (fun h => match getitem h (lit "name") with
                       | Ok name => eq_str name k
                       | Raise _ => false
                       end) (rev hs) with
  | Some h => match getitem h (lit "value") with
              | Ok v => v
              | Raise _ => VStr []
              end
  | None => VStr []
  end.



(** A text that is not an error message, alone in the list. *)
Definition plain_result (out : list TextContent) : Prop :=
  exists t, out = one t /\ is_error_text t = false.

Section Predicates.

Variable X : Type.

(** Whatever [m] returns satisfies [P]. *)
Definition returns {A} (P : A -> Prop) (m : M X A) : Prop :=
  forall w a w', m w = (Ok a, w') -> P a.

(** With a session in the cache, [m] leaves the cache and the token file
    as they are, and the only calls it makes across the process boundary
    are [.execute()] on requests that satisfy [Q]. *)
Definition keeps_session {A} (Q : request -> Prop) (m : M X A) : Prop :=
  forall w r w' s,
    gmail_service w = Some s -> m w = (r, w') ->
    gmail_service w' = Some s /\ token_file w' = token_file w /\
    exists evs, log w' = log w ++ evs /\ Forall (executes Q) evs.


(** [m] never writes the cache. *)
Definition keeps_cache {A} (m : M X A) : Prop :=
  forall w r w', m w = (r, w') -> gmail_service w' = gmail_service w.

(** The normalizer accepts the raw message [full] and gives [e]. *)
Definition normalizes_to (full : pyval) (e : NormalizedMessage) : Prop :=
  parse_gmail_message full = Ok e.

(** The log entries of one fetch per identifier. *)
Definition get_events (ids : list pyval) : list event :=
  map (fun id => EvExecute (ReqGet id)) ids.

End Predicates.

End Observe.

(** ** The raw-message encoding of [send_email_tool] *)

Module Encode.
Import Py Codec.

(** The URL-safe alphabet: the character of a six-bit value. *)
Definition b64_char (v : N) : N :=
  (if v <? 26 then v + 65
   else if v <? 52 then v - 26 + 97
   else if v <? 62 then v - 52 + 48
   else if v =? 62 then 45
   else 95)%N.

(** [base64.urlsafe_b64encode(b).decode()]: three octets give four
    characters; a last group of one or two octets is padded with '='. *)
Fixpoint urlsafe_b64encode (b : bytes) : str :=
  match b with
  | [] => []
  | [b0] =>
      [b64_char (N.shiftr b0 2);
       b64_char (N.shiftl (N.land b0 3) 4);
       61%N; 61%N]
  | [b0; b1] =>
      [b64_char (N.shiftr b0 2);
       b64_char (N.lor (N.shiftl (N.land b0 3) 4) (N.shiftr b1 4));
       b64_char (N.shiftl (N.land b1 15) 2);
       61%N]
  | b0 :: b1 :: b2 :: rest =>
      b64_char (N.shiftr b0 2)
      :: b64_char (N.lor (N.shiftl (N.land b0 3) 4) (N.shiftr b1 4))
      :: b64_char (N.lor (N.shiftl (N.land b1 15) 2) (N.shiftr b2 6))
      :: b64_char (N.land b2 63)
      :: urlsafe_b64encode rest
  end.

Definition is_octets (b : bytes) : bool := forallb (fun c => (c <? 256)%N) b.

(** The numbers below [n], for checks by enumeration. *)
Definition range (n : nat) : list N := map N.of_nat (seq 0 n).

(** The six-bit values of a group of three octets, as the encoder
    computes them. *)
Definition sextet0 (b0 : N) : N := N.shiftr b0 2.
Definition sextet1 (b0 b1 : N) : N :=
  N.lor (N.shiftl (N.land b0 3) 4) (N.shiftr b1 4).
Definition sextet2 (b1 b2 : N) : N :=
  N.lor (N.shiftl (N.land b1 15) 2) (N.shiftr b2 6).
Definition sextet3 (b2 : N) : N := N.land b2 63.

(** What enumeration checks: an alphabet character is ASCII, is not the
    padding character and decodes to its value; the sextets of two
    neighbouring octets are below 64 and give the octets back. *)
Definition alphabet_check (v : N) : bool :=
  negb (urlsafe_translate (b64_char v) =? 61)%N
  && match b64_value (urlsafe_translate (b64_char v)) with
     | Some u => (u =? v)%N
     | None => false
     end
  && (b64_char v <? 128)%N.

Definition group_check (a b : N) : bool :=
  (sextet0 a <? 64)%N && (sextet1 a b <? 64)%N
  && (sextet2 a b <? 64)%N && (sextet3 b <? 64)%N
  && (N.lor (N.shiftl (sextet0 a) 2) (N.shiftr (sextet1 a b) 4) =? a)%N
  && (N.land (sextet1 a b) 15 =? N.shiftr b 4)%N
  && (N.lor (N.shiftl (N.shiftr a 4) 4) (N.shiftr (sextet2 a b) 2) =? a)%N
  && (N.lor (N.shiftl (N.land (sextet2 a b) 3) 6) (sextet3 b) =? b)%N.

Definition tail_check (b : N) : bool :=
  (N.shiftl (N.land b 3) 4 <? 64)%N
  && (N.shiftl (N.land b 15) 2 <? 64)%N
  && (N.lor (N.shiftl (sextet0 b) 2)
        (N.shiftr (N.shiftl (N.land b 3) 4) 4) =? b)%N
  && (N.lor (N.shiftl (N.shiftr b 4) 4)
        (N.shiftr (N.shiftl (N.land b 15) 2) 2) =? b)%N.

End Encode.

(** ** More outside worlds *)

Module Scenario.
Import Py Normalizer Server Fixture.

(** The stored token has expired and the authorization server renews
    it. *)
Definition renewable : Externals nat :=
  outside_world (Ok expired_creds) (Ok good_creds)
    (listing_of ["a"; "b"]%string) never.

(** The stored token cannot be parsed. *)
Definition corrupt_token : Externals nat :=
  outside_world (Raise (Exc "ValueError" (lit "Expecting value")))
    (Ok good_creds) (listing_of []) never.

(** A token that is neither valid nor refreshable. *)
Definition revoked_creds : Credentials :=
  {| valid := false; expired := true; refresh_token := None;
     to_json := stored_token |}.

Definition revoked : Externals nat :=
  outside_world (Ok revoked_creds) (Ok good_creds) (listing_of []) never.

(** No token file yet. *)
Definition first_run : World nat :=
  {| gmail_service := None; token_file := None;
     token_writable := true; credentials_file := true;
     outside := O; log := [] |}.

(** No token file and no client-secrets file either. *)
Definition unprovisioned : World nat :=
  {| gmail_service := None; token_file := None;
     token_writable := true; credentials_file := false;
     outside := O; log := [] |}.

(** The Gmail API refuses the label removal of message "b" only. *)
Definition refuses_b (r : request) : bool :=
  match r with
  | ReqModify id _ => eq_str id (lit "b")
  | _ => false
  end.

Definition flaky : Externals nat :=
  outside_world (Ok good_creds) (Ok good_creds)
    (listing_of ["a"; "b"; "c"]%string) refuses_b.

End Scenario.

(** * Properties *)

Import Py Codec Normalizer Server.
Local Open Scope m_scope.
Unset Implicit Arguments.

(** ** The log only grows, by events of a known kind *)

Section Emits.

Variable X : Type.
Variable E : Externals X.

Lemma emits_weaken {A} (P Q : event -> Prop) (m : M X A) :
  (forall ev, P ev -> Q ev) -> emits P m -> emits Q m.
Proof.
  intros HPQ Hm w r w' Hrun.
  destruct (Hm w r w' Hrun) as (evs & Hlog & Hall).
  exists evs. split; [exact Hlog|].
  eapply Forall_impl; eauto.
Qed.

Lemma emits_ret {A} (P : event -> Prop) (a : A) : emits P (ret (X:=X) a).
Proof.
  intros w r w' Hrun. inversion Hrun; subst.
  exists []. rewrite app_nil_r. auto.
Qed.

Lemma emits_raise {A} (P : event -> Prop) (e : exn) :
  emits P (raise (X:=X) (A:=A) e).
Proof.
  intros w r w' Hrun. inversion Hrun; subst.
  exists []. rewrite app_nil_r. auto.
Qed.

Lemma emits_lift {A} (P : event -> Prop) (r : Res A) : emits P (lift (X:=X) r).
Proof.
  intros w r' w' Hrun. inversion Hrun; subst.
  exists []. rewrite app_nil_r. auto.
Qed.

Lemma emits_bind {A B} (P : event -> Prop) (m : M X A) (k : A -> M X B) :
  emits P m -> (forall a, emits P (k a)) -> emits P (bind m k).
Proof.
  intros Hm Hk w r w' Hrun. unfold bind in Hrun.
  destruct (m w) as [[a|e] w1] eqn:Hmw.
  - destruct (Hm _ _ _ Hmw) as (evs1 & Hl1 & Ha1).
    destruct (Hk a _ _ _ Hrun) as (evs2 & Hl2 & Ha2).
    exists (evs1 ++ evs2). split.
    + rewrite Hl2, Hl1, app_assoc. reflexivity.
    + apply Forall_app. auto.
  - inversion Hrun; subst. eapply Hm; eauto.
Qed.

Lemma emits_try {A} (P : event -> Prop) (m : M X A) (h : exn -> M X A) :
  emits P m -> (forall e, emits P (h e)) -> emits P (try_except m h).
Proof.
  intros Hm Hh w r w' Hrun. unfold try_except in Hrun.
  destruct (m w) as [[a|[c msg|c msg]] w1] eqn:Hmw.
  - inversion Hrun; subst. eapply Hm; eauto.
  - destruct (Hm _ _ _ Hmw) as (evs1 & Hl1 & Ha1).
    destruct (Hh _ _ _ _ Hrun) as (evs2 & Hl2 & Ha2).
    exists (evs1 ++ evs2). split.
    + rewrite Hl2, Hl1, app_assoc. reflexivity.
    + apply Forall_app. auto.
  - inversion Hrun; subst. eapply Hm; eauto.
Qed.

Lemma emits_call_outside {A} (P : event -> Prop) (ev : event)
    (f : X -> Res A * X) :
  P ev -> emits P (call_outside ev f).
Proof.
  intros Hev w r w' Hrun. unfold call_outside in Hrun.
  destruct (f (outside w)) as [r0 x]. inversion Hrun; subst.
  exists [ev]. simpl. auto.
Qed.

Lemma emits_call_library {A} (P : event -> Prop) (f : X -> Res A * X) :
  emits P (call_library f).
Proof.
  intros w r w' Hrun. unfold call_library in Hrun.
  destruct (f (outside w)) as [r0 x]. inversion Hrun; subst.
  exists []. simpl. rewrite app_nil_r. auto.
Qed.

Lemma emits_write_text (P : event -> Prop) (data : str) :
  P (EvWriteToken data) -> emits P (write_text (X:=X) data).
Proof.
  intros Hev w r w' Hrun. unfold write_text in Hrun.
  destruct (token_writable w); inversion Hrun; subst.
  - exists [EvWriteToken data]. simpl. auto.
  - exists []. rewrite app_nil_r. auto.
Qed.

Lemma emits_consent : emits auth_event (consent E).
Proof.
  intros w r w' Hrun. unfold consent in Hrun.
  destruct (credentials_file w).
  - pose proof (emits_call_outside auth_event EvConsent
                  (run_local_server E) I) as H.
    exact (H _ _ _ Hrun).
  - inversion Hrun; subst. exists []. rewrite app_nil_r. auto.
Qed.

Lemma emits_load_token (P : event -> Prop) : emits P (load_token E).
Proof.
  intros w r w' Hrun. unfold load_token in Hrun.
  destruct (token_file w).
  - destruct (from_authorized_user_file E (outside w) s);
      inversion Hrun; subst; exists []; rewrite app_nil_r; auto.
  - inversion Hrun; subst. exists []. rewrite app_nil_r. auto.
Qed.

Lemma emits_acquire creds : emits auth_event (acquire E creds).
Proof.
  unfold acquire. apply emits_bind.
  - destruct creds as [c|]; [|apply emits_consent].
    destruct (expired c && str_truthy (refresh_token c)).
    + apply emits_call_outside. exact I.
    + apply emits_consent.
  - intros c. apply emits_bind.
    + apply emits_write_text. exact I.
    + intros _. apply emits_ret.
Qed.

Lemma emits_get_gmail_service : emits auth_event (get_gmail_service E).
Proof.
  intros w r w' Hrun. unfold get_gmail_service in Hrun.
  destruct (gmail_service w).
  - inversion Hrun; subst. exists []. rewrite app_nil_r. auto.
  - revert Hrun. apply emits_bind; [apply emits_load_token|].
    intros creds. apply emits_bind.
    + destruct creds as [c|]; [destruct (valid c)|];
        first [apply emits_ret | apply emits_acquire].
    + intros c. apply emits_bind.
      * apply emits_call_outside. exact I.
      * intros s w1 r1 w2 Hrun. inversion Hrun; subst.
        exists []. simpl. rewrite app_nil_r. auto.
Qed.

End Emits.

(** ** What the four tools send to the Gmail API *)

Section Requests.

Variable X : Type.
Variable E : Externals X.
Variable cfg : Config.

Lemma auth_event_listing Q ev : auth_event ev -> listing_with Q ev.
Proof. destruct ev; simpl; try tauto. Qed.

Lemma list_limits_app evs1 evs2 :
  list_limits (evs1 ++ evs2) = list_limits evs1 ++ list_limits evs2.
Proof.
  induction evs1 as [|ev evs1 IH]; simpl; [reflexivity|].
  destruct ev as [| | | |[]]; simpl; rewrite ?IH; reflexivity.
Qed.

Lemma modify_calls_app evs1 evs2 :
  modify_calls (evs1 ++ evs2) = modify_calls evs1 ++ modify_calls evs2.
Proof.
  induction evs1 as [|ev evs1 IH]; simpl; [reflexivity|].
  destruct ev as [| | | |[]]; simpl; rewrite ?IH; reflexivity.
Qed.

Lemma list_limits_Forall Q evs :
  Forall (listing_with Q) evs -> Forall Q (list_limits evs).
Proof.
  induction 1 as [|ev evs Hev _ IH]; simpl; [constructor|].
  destruct ev as [| | | |[]]; simpl in *; auto.
Qed.

Lemma emits_session Q : emits (listing_with Q) (get_gmail_service E).
Proof.
  eapply emits_weaken; [|apply emits_get_gmail_service].
  apply auth_event_listing.
Qed.

Ltac emits_steps :=
  repeat first
    [ apply emits_ret | apply emits_raise | apply emits_lift
    | apply emits_call_library | apply emits_session
    | apply emits_call_outside; simpl; auto
    | apply emits_bind; [|intros ?]
    | apply emits_try; [|intros ?] ].

Lemma emits_fetch_all Q svc items :
  emits (listing_with Q) (fetch_all E svc items).
Proof.
  induction items as [|msg rest IH]; simpl.
  - apply emits_ret.
  - unfold run. emits_steps. exact IH.
Qed.

Lemma emits_modify_all Q svc items :
  emits (listing_with Q) (modify_all E svc items).
Proof.
  induction items as [|msg rest IH]; simpl.
  - apply emits_ret.
  - unfold run. emits_steps. exact IH.
Qed.

Lemma emits_read_inbox_body (Q : option pyval -> Prop) mailbox limit unread :
  Q (Some limit) ->
  emits (listing_with Q) (read_inbox_body E mailbox limit unread).
Proof.
  intros HQ. unfold read_inbox_body, run. emits_steps.
  match goal with |- context [truthy ?m] => destruct (truthy m) end; simpl.
  - emits_steps. apply emits_fetch_all.
  - emits_steps.
Qed.

Lemma emits_search_emails_body (Q : option pyval -> Prop) query mailbox limit :
  Q (Some limit) ->
  emits (listing_with Q) (search_emails_body E query mailbox limit).
Proof.
  intros HQ. unfold search_emails_body, run. emits_steps.
  match goal with |- context [truthy ?m] => destruct (truthy m) end; simpl.
  - emits_steps. apply emits_fetch_all.
  - emits_steps.
Qed.

Lemma emits_mark_as_read_body (Q : option pyval -> Prop) subject mailbox :
  Q None ->
  emits (listing_with Q) (mark_as_read_body E subject mailbox).
Proof.
  intros HQ. unfold mark_as_read_body, run. emits_steps.
  match goal with |- context [truthy ?m] => destruct (truthy m) end; simpl.
  - emits_steps. apply emits_modify_all.
  - emits_steps.
Qed.

Lemma emits_read_inbox_tool args :
  emits (listing_with (capped_limit cfg args)) (read_inbox_tool E cfg args).
Proof.
  unfold read_inbox_tool.
  apply emits_bind; [apply emits_lift|intros mailbox].
  intros w r w' Hrun. unfold bind at 1, lift at 1 in Hrun.
  destruct (get args (lit "limit") (VInt 10)) as [v|e] eqn:Hget;
    [|inversion Hrun; subst; exists []; rewrite app_nil_r; auto].
  unfold bind at 1, lift at 1 in Hrun.
  destruct (min_int v (MAX_EMAILS cfg)) as [lim|e] eqn:Hmin;
    [|inversion Hrun; subst; exists []; rewrite app_nil_r; auto].
  revert Hrun. generalize w r w'.
  change (emits (listing_with (capped_limit cfg args))
            (bind (lift (get args (lit "unread_only") (VBool false)))
               (fun unread_only =>
                  try_except (read_inbox_body E mailbox lim unread_only)
                    (fun e => ret (one (lit "[ERROR] Failed to read inbox: "
                                        ++ exn_str e)))))).
  apply emits_bind; [apply emits_lift|intros unread_only].
  apply emits_try; [|intros e; apply emits_ret].
  apply emits_read_inbox_body.
  exists v, lim. auto.
Qed.

Lemma emits_search_emails_tool args :
  emits (listing_with (capped_limit cfg args)) (search_emails_tool E cfg args).
Proof.
  unfold search_emails_tool.
  apply emits_bind; [apply emits_lift|intros query].
  apply emits_bind; [apply emits_lift|intros mailbox].
  intros w r w' Hrun. unfold bind at 1, lift at 1 in Hrun.
  destruct (get args (lit "limit") (VInt 10)) as [v|e] eqn:Hget;
    [|inversion Hrun; subst; exists []; rewrite app_nil_r; auto].
  unfold bind at 1, lift at 1 in Hrun.
  destruct (min_int v (MAX_EMAILS cfg)) as [lim|e] eqn:Hmin;
    [|inversion Hrun; subst; exists []; rewrite app_nil_r; auto].
  revert Hrun. generalize w r w'.
  change (emits (listing_with (capped_limit cfg args))
            (try_except (search_emails_body E query mailbox lim)
               (fun e => ret (one (lit "[ERROR] Failed to search: "
                                   ++ exn_str e))))).
  apply emits_try; [|intros e; apply emits_ret].
  apply emits_search_emails_body.
  exists v, lim. auto.
Qed.

Lemma emits_mark_as_read_tool args :
  emits (listing_with (fun m => m = None)) (mark_as_read_tool E args).
Proof.
  unfold mark_as_read_tool.
  apply emits_bind; [apply emits_lift|intros subject].
  apply emits_bind; [apply emits_lift|intros mailbox].
  apply emits_try; [|intros e; apply emits_ret].
  apply emits_mark_as_read_body. reflexivity.
Qed.

End Requests.

(** ** Exactly one listing call per run *)

Section ListingOnce.

Variable X : Type.
Variable E : Externals X.
Variable cfg : Config.

Lemma no_listing_limits evs : Forall no_listing evs -> list_limits evs = [].
Proof.
  intros H. apply list_limits_Forall in H.
  destruct (list_limits evs); [reflexivity|]. inversion H; contradiction.
Qed.

Lemma session_no_listing w svc w1 :
  get_gmail_service E w = (Ok svc, w1) ->
  exists evs, log w1 = log w ++ evs /\ list_limits evs = [] /\
              modify_calls evs = [].
Proof.
  intros H.
  destruct (emits_get_gmail_service X E w (Ok svc) w1 H) as (evs & Hlog & Hall).
  exists evs. split; [exact Hlog|].
  clear Hlog H. induction Hall as [|ev evs Hev _ [IH1 IH2]]; [auto|].
  destruct ev; simpl in *; try contradiction; auto.
Qed.

Lemma try_ret_world {A} (body : M X A) (h : exn -> A) w :
  snd (try_except body (fun e => ret (h e)) w) = snd (body w).
Proof.
  unfold try_except. destruct (body w) as [[a|[c m|c m]] w']; reflexivity.
Qed.

(** After the session is obtained and the mailbox name lowered, the
    handler issues [ReqList q lim] and then no other listing call. *)
Lemma listing_then_rest {A} svc q lim (k : pyval -> M X A) w1 :
  (forall results, emits no_listing (k results)) ->
  exists evs,
    log (snd (bind (run E svc (ReqList q lim)) k w1)) = log w1 ++ evs /\
    list_limits evs = [lim].
Proof.
  intros Hk. unfold bind, run, call_outside.
  destruct (execute E (outside w1) svc (ReqList q lim)) as [[results|e] x2].
  - destruct (k results (step_outside (EvExecute (ReqList q lim)) x2 w1))
      as [r w3] eqn:Hrun.
    destruct (Hk _ _ _ _ Hrun) as (evs & Hlog & Hall).
    exists (EvExecute (ReqList q lim) :: evs). simpl. split.
    + rewrite Hlog. simpl. rewrite <- app_assoc. reflexivity.
    + rewrite (no_listing_limits _ Hall). reflexivity.
  - exists [EvExecute (ReqList q lim)]. simpl. auto.
Qed.

Lemma read_inbox_body_lists_once mailbox limit unread w svc w1 :
  get_gmail_service E w = (Ok svc, w1) ->
  is_ok (lower E mailbox) = true ->
  exists evs,
    log (snd (read_inbox_body E mailbox limit unread w)) = log w ++ evs /\
    list_limits evs = [Some limit].
Proof.
  intros Hsvc Hlow.
  destruct (session_no_listing _ _ _ Hsvc) as (evs0 & Hlog0 & Hl0 & _).
  destruct (lower E mailbox) as [mb|] eqn:Hmb; [|discriminate].
  unfold read_inbox_body. unfold bind at 1. rewrite Hsvc.
  unfold bind at 1, lift at 1. rewrite Hmb.
  match goal with
  | |- context [bind (run E svc (ReqList ?q ?l)) ?k w1] =>
      destruct (listing_then_rest svc q l k w1) as (evs & Hlog & Hl)
  end.
  - intros results. apply emits_bind; [apply emits_lift|intros messages].
    destruct (truthy messages); simpl.
    + apply emits_bind; [apply emits_lift|intros items].
      apply emits_bind; [apply emits_fetch_all|intros emails].
      apply emits_ret.
    + apply emits_ret.
  - exists (evs0 ++ evs). split.
    + rewrite Hlog, Hlog0, app_assoc. reflexivity.
    + rewrite list_limits_app, Hl0, Hl. reflexivity.
Qed.

Lemma search_emails_body_lists_once query mailbox limit w svc w1 :
  get_gmail_service E w = (Ok svc, w1) ->
  is_ok (lower E mailbox) = true ->
  exists evs,
    log (snd (search_emails_body E query mailbox limit w)) = log w ++ evs /\
    list_limits evs = [Some limit].
Proof.
  intros Hsvc Hlow.
  destruct (session_no_listing _ _ _ Hsvc) as (evs0 & Hlog0 & Hl0 & _).
  destruct (lower E mailbox) as [mb|] eqn:Hmb; [|discriminate].
  unfold search_emails_body. unfold bind at 1. rewrite Hsvc.
  unfold bind at 1, lift at 1. rewrite Hmb.
  match goal with
  | |- context [bind (run E svc (ReqList ?q ?l)) ?k w1] =>
      destruct (listing_then_rest svc q l k w1) as (evs & Hlog & Hl)
  end.
  - intros results. apply emits_bind; [apply emits_lift|intros messages].
    destruct (truthy messages); simpl.
    + apply emits_bind; [apply emits_lift|intros items].
      apply emits_bind; [apply emits_fetch_all|intros emails].
      apply emits_ret.
    + apply emits_ret.
  - exists (evs0 ++ evs). split.
    + rewrite Hlog, Hlog0, app_assoc. reflexivity.
    + rewrite list_limits_app, Hl0, Hl. reflexivity.
Qed.

Lemma mark_as_read_body_lists_once subject mailbox w svc w1 :
  get_gmail_service E w = (Ok svc, w1) ->
  is_ok (lower E mailbox) = true ->
  exists evs,
    log (snd (mark_as_read_body E subject mailbox w)) = log w ++ evs /\
    list_limits evs = [None].
Proof.
  intros Hsvc Hlow.
  destruct (session_no_listing _ _ _ Hsvc) as (evs0 & Hlog0 & Hl0 & _).
  destruct (lower E mailbox) as [mb|] eqn:Hmb; [|discriminate].
  unfold mark_as_read_body. unfold bind at 1. rewrite Hsvc.
  unfold bind at 1, lift at 1. rewrite Hmb.
  match goal with
  | |- context [bind (run E svc (ReqList ?q ?l)) ?k w1] =>
      destruct (listing_then_rest svc q l k w1) as (evs & Hlog & Hl)
  end.
  - intros results. apply emits_bind; [apply emits_lift|intros messages].
    destruct (truthy messages); simpl.
    + apply emits_bind; [apply emits_lift|intros items].
      apply emits_bind; [apply emits_modify_all|intros u].
      apply emits_ret.
    + apply emits_ret.
  - exists (evs0 ++ evs). split.
    + rewrite Hlog, Hlog0, app_assoc. reflexivity.
    + rewrite list_limits_app, Hl0, Hl. reflexivity.
Qed.

End ListingOnce.

(** ** The result limit of [read_inbox] and [search_emails] *)

Lemma min_int_above cfg v z :
  int_value v = Some z -> (MAX_EMAILS cfg < z)%Z ->
  min_int v (MAX_EMAILS cfg) = Ok (VInt (MAX_EMAILS cfg)).
Proof.
  intros Hv Hz. destruct v as [|b|n| | |]; simpl in Hv; try discriminate;
    inversion Hv; subst; simpl.
  - destruct b; destruct (Z.ltb_spec (MAX_EMAILS cfg) 1);
      destruct (Z.ltb_spec (MAX_EMAILS cfg) 0); try reflexivity; lia.
  - destruct (Z.ltb_spec (MAX_EMAILS cfg) z); [reflexivity|lia].
Qed.

Lemma bind_lift {X A B} (a : A) (k : A -> M X B) (w : World X) :
  bind (lift (Ok a)) k w = k a w.
Proof. reflexivity. Qed.


Lemma bind_ok {X A B} (m : M X A) (k : A -> M X B) (w w1 : World X) (a : A) :
  m w = (Ok a, w1) -> bind m k w = k a w1.
Proof. intros H. unfold bind. rewrite H. reflexivity. Qed.

Lemma bind_raised {X A B} (m : M X A) (k : A -> M X B) (w w1 : World X) e :
  m w = (Raise e, w1) -> bind m k w = (Raise e, w1).
Proof. intros H. unfold bind. rewrite H. reflexivity. Qed.

Ltac step_lift :=
  match goal with
  | |- context [bind (lift (Ok ?a)) ?k ?w] => rewrite (bind_lift a k w)
  end.

Lemma dispatch_read_inbox X (E : Externals X) cfg args :
  call_tool E cfg (lit "read_inbox") args = read_inbox_tool E cfg args.
Proof. reflexivity. Qed.

Lemma dispatch_search_emails X (E : Externals X) cfg args :
  call_tool E cfg (lit "search_emails") args = search_emails_tool E cfg args.
Proof. reflexivity. Qed.

Lemma dispatch_mark_as_read X (E : Externals X) cfg args :
  call_tool E cfg (lit "mark_as_read") args = mark_as_read_tool E args.
Proof. reflexivity. Qed.

Lemma dispatch_send_email X (E : Externals X) cfg args :
  call_tool E cfg (lit "send_email") args = send_email_tool E cfg args.
Proof. reflexivity. Qed.

(** C5 — clamp, not rejection.  When the [limit] argument of a
    [read_inbox] or [search_emails] call is a number above [MAX_EMAILS],
    [min] returns [MAX_EMAILS] without raising; every listing request
    the call sends carries [maxResults = MAX_EMAILS]; and once a session
    is obtained and the mailbox is a string, exactly one listing request
    is sent, with that limit. *)
Theorem limit_above_maximum_is_clamped :
  forall (X : Type) (E : Externals X) (cfg : Config)
         (d : list (str * pyval)) (v : pyval) (z : Z),
    dict_get (lit "limit") d = Some v ->
    int_value v = Some z ->
    (MAX_EMAILS cfg < z)%Z ->
    min_int v (MAX_EMAILS cfg) = Ok (VInt (MAX_EMAILS cfg)) /\
    (forall name w,
        name = lit "read_inbox" \/ name = lit "search_emails" ->
        exists evs,
          log (snd (call_tool E cfg name (VDict d) w)) = log w ++ evs /\
          Forall (fun m => m = Some (VInt (MAX_EMAILS cfg))) (list_limits evs)) /\
    (forall name w svc w1 mailbox,
        name = lit "read_inbox" \/
        (name = lit "search_emails" /\ dict_get (lit "query") d <> None) ->
        get_gmail_service E w = (Ok svc, w1) ->
        get (VDict d) (lit "mailbox") (VStr (lit "INBOX")) = Ok (VStr mailbox) ->
        exists evs,
          log (snd (call_tool E cfg name (VDict d) w)) = log w ++ evs /\
          list_limits evs = [Some (VInt (MAX_EMAILS cfg))]).
Proof.
  intros X E cfg d v z Hd Hv Hz.
  pose proof (min_int_above cfg v z Hv Hz) as Hmin.
  assert (Hget : get (VDict d) (lit "limit") (VInt 10) = Ok v)
    by (simpl; rewrite Hd; reflexivity).
  split; [exact Hmin|]. split.
  - intros name w Hname.
    assert (Hem : emits (listing_with (capped_limit cfg (VDict d)))
                    (call_tool E cfg name (VDict d))).
    { destruct Hname; subst name.
      - rewrite dispatch_read_inbox. apply emits_read_inbox_tool.
      - rewrite dispatch_search_emails. apply emits_search_emails_tool. }
    destruct (call_tool E cfg name (VDict d) w) as [r w'] eqn:Hrun.
    destruct (Hem _ _ _ Hrun) as (evs & Hlog & Hall).
    exists evs. split; [exact Hlog|].
    apply list_limits_Forall in Hall.
    eapply Forall_impl; [|exact Hall].
    intros m (v' & lim & Hg & Hm & ->).
    rewrite Hget in Hg. inversion Hg; subst v'.
    rewrite Hmin in Hm. inversion Hm; subst. reflexivity.
  - intros name w svc w1 mailbox Hname Hsvc Hmb.
    destruct Hname as [->|[-> Hq]].
    + rewrite dispatch_read_inbox. unfold read_inbox_tool.
      rewrite Hmb, bind_lift, Hget, bind_lift, Hmin, bind_lift.
      simpl get. rewrite bind_lift, try_ret_world.
      eapply read_inbox_body_lists_once; [exact Hsvc|reflexivity].
    + rewrite dispatch_search_emails. unfold search_emails_tool.
      simpl getitem.
      destruct (dict_get (lit "query") d) as [query|] eqn:Hquery;
        [|contradiction].
      rewrite bind_lift, Hmb, bind_lift, Hget, bind_lift, Hmin, bind_lift.
      rewrite try_ret_world.
      eapply search_emails_body_lists_once; [exact Hsvc|reflexivity].
Qed.

Import Fixture.

Lemma limit_above_maximum_is_clamped_witness :
  min_int (VInt 99) 50 = Ok (VInt 50) /\
  list_limits
    (log (snd (call_tool (reliable ["a"; "b"]%string) config (lit "read_inbox")
                 (args_of [("limit"%string, VInt 99)]) start)))
  = [Some (VInt 50)].
Proof.
  destruct (limit_above_maximum_is_clamped nat (reliable ["a"; "b"]%string)
              config [(lit "limit", VInt 99)] (VInt 99) 99%Z
              eq_refl eq_refl eq_refl) as (Hmin & _ & Hone).
  split; [exact Hmin|].
  destruct (Hone (lit "read_inbox") start the_service authorized (lit "INBOX")
              (or_introl eq_refl) eq_refl eq_refl) as (evs & Hlog & Hl).
  simpl log at 2 in Hlog. simpl app in Hlog.
  unfold args_of. simpl map. rewrite Hlog. exact Hl.
Defined.

(** ** [mark_as_read]: one label removal per listed identifier *)

Section MarkAsRead.

Variable X : Type.
Variable E : Externals X.

Lemma truthy_list (l : list pyval) :
  truthy (VList l) = match l with [] => false | _ => true end.
Proof. destruct l; reflexivity. Qed.

Lemma modify_calls_events ids : modify_calls (modify_events ids) = ids.
Proof. induction ids as [|id ids IH]; simpl; congruence. Qed.

(** The loop over entries that carry an identifier each, when the Gmail
    API accepts the removals one after the other. *)
Lemma modify_all_answered svc entries ids :
  Forall2 has_id entries ids ->
  forall w acks x',
    answers E svc (map removal ids) (outside w) = Some (acks, x') ->
    exists w',
      modify_all E svc entries w = (Ok tt, w') /\
      log w' = log w ++ modify_events ids /\
      outside w' = x'.
Proof.
  induction 1 as [|msg id entries ids Hid _ IH]; intros w acks x' Hans.
  - simpl in Hans. inversion Hans; subst. exists w. simpl.
    rewrite app_nil_r. auto.
  - cbn [map answers] in Hans. unfold removal at 1 in Hans.
    destruct (execute E (outside w) svc (ReqModify id [lit "UNREAD"]))
      as [[a|e] x1] eqn:Hex; [|discriminate].
    destruct (answers E svc (map removal ids) x1) as [[others x'']|] eqn:Hrest;
      [|discriminate].
    inversion Hans; subst.
    cbn [modify_all]. unfold has_id in Hid. rewrite Hid. step_lift.
    unfold bind at 1, run at 1, call_outside. rewrite Hex.
    destruct (IH (step_outside (EvExecute (ReqModify id [lit "UNREAD"])) x1 w)
                others x' Hrest) as (w' & Hrun & Hlog & Hout).
    exists w'. split; [exact Hrun|]. split; [|exact Hout].
    rewrite Hlog. simpl. rewrite <- app_assoc. reflexivity.
Qed.

(** The run of [mark_as_read] when nothing fails: the session is
    obtained, the listing answers with entries that carry the
    identifiers [ids], and the label removals of this run are accepted
    one after the other. *)
Lemma mark_as_read_trace d subject mailbox w svc w1 results x2 entries ids
    acks x3 :
  dict_get (lit "subject") d = Some subject ->
  get (VDict d) (lit "mailbox") (VStr (lit "INBOX")) = Ok (VStr mailbox) ->
  get_gmail_service E w = (Ok svc, w1) ->
  execute E (outside w1) svc (ReqList (unread_query E subject mailbox) None)
    = (Ok results, x2) ->
  get results (lit "messages") (VList []) = Ok (VList entries) ->
  Forall2 has_id entries ids ->
  answers E svc (map removal ids) x2 = Some (acks, x3) ->
  exists w',
    mark_as_read_tool E (VDict d) w
    = (Ok (one
             match ids with
             | [] => lit "No unread emails found with subject '"
                     ++ fmt E subject ++ lit "'"
             | _ => lit "Marked " ++ str_of_Z (Z.of_nat (List.length ids))
                    ++ lit " email(s) as read"
             end), w') /\
    log w' = log w1 ++ EvExecute (ReqList (unread_query E subject mailbox) None)
                       :: modify_events ids /\
    outside w' = x3.
Proof.
  intros Hsub Hmb Hsvc Hlist Hmsgs Hids Hans.
  unfold mark_as_read_tool. simpl getitem. rewrite Hsub, bind_lift.
  rewrite Hmb, bind_lift.
  unfold try_except, mark_as_read_body.
  rewrite (bind_ok _ _ _ _ _ Hsvc).
  simpl lower. rewrite (bind_lift (str_lower E mailbox)).
  fold (unread_query E subject mailbox).
  assert (Hrun : run E svc (ReqList (unread_query E subject mailbox) None) w1
                 = (Ok results,
                    step_outside
                      (EvExecute (ReqList (unread_query E subject mailbox) None))
                      x2 w1))
    by (unfold run, call_outside; rewrite Hlist; reflexivity).
  rewrite (bind_ok _ _ _ _ _ Hrun). clear Hrun.
  rewrite Hmsgs. step_lift. rewrite truthy_list.
  destruct Hids as [|msg id entries ids Hid Hids]; cbn [negb iter].
  - simpl in Hans. inversion Hans; subst.
    eexists. split; [reflexivity|]. split; reflexivity.
  - step_lift.
    destruct (modify_all_answered svc (msg :: entries) (id :: ids)
                (Forall2_cons _ _ Hid Hids)
                (step_outside
                   (EvExecute (ReqList (unread_query E subject mailbox) None))
                   x2 w1) acks x3 Hans) as (w' & Hrun & Hlog & Hout).
    rewrite (bind_ok _ _ _ _ _ Hrun). exists w'. split; [|split].
    + unfold ret. cbn [List.length]. rewrite (Forall2_length Hids).
      reflexivity.
    + rewrite Hlog. simpl. rewrite <- app_assoc. reflexivity.
    + exact Hout.
Qed.

End MarkAsRead.

Lemma list_limits_modify_events ids : list_limits (modify_events ids) = [].
Proof. induction ids as [|id ids IH]; simpl; auto. Qed.

(** The events of a run of [mark_as_read] in which nothing fails. *)
Lemma mark_as_read_events X (E : Externals X) cfg d subject mailbox w svc w1
    results x2 entries ids acks x3 :
  dict_get (lit "subject") d = Some subject ->
  get (VDict d) (lit "mailbox") (VStr (lit "INBOX")) = Ok (VStr mailbox) ->
  get_gmail_service E w = (Ok svc, w1) ->
  execute E (outside w1) svc (ReqList (unread_query E subject mailbox) None)
    = (Ok results, x2) ->
  get results (lit "messages") (VList []) = Ok (VList entries) ->
  Forall2 has_id entries ids ->
  answers E svc (map removal ids) x2 = Some (acks, x3) ->
  exists evs,
    fst (call_tool E cfg (lit "mark_as_read") (VDict d) w)
    = Ok (one
            match ids with
            | [] => lit "No unread emails found with subject '"
                    ++ fmt E subject ++ lit "'"
            | _ => lit "Marked " ++ str_of_Z (Z.of_nat (List.length ids))
                   ++ lit " email(s) as read"
            end) /\
    log (snd (call_tool E cfg (lit "mark_as_read") (VDict d) w)) = log w ++ evs /\
    list_limits evs = [None] /\
    modify_calls evs = ids.
Proof.
  intros Hsub Hmb Hsvc Hlist Hmsgs Hids Hans.
  destruct (mark_as_read_trace X E d subject mailbox w svc w1 results x2
              entries ids acks x3 Hsub Hmb Hsvc Hlist Hmsgs Hids Hans)
    as (w' & Hrun & Hlog & _).
  destruct (session_no_listing X E w svc w1 Hsvc) as (evs0 & Hlog0 & Hl0 & Hm0).
  rewrite dispatch_mark_as_read, Hrun. simpl fst. simpl snd.
  exists (evs0 ++ EvExecute (ReqList (unread_query E subject mailbox) None)
               :: modify_events ids).
  split; [reflexivity|]. split; [|split].
  - rewrite Hlog, Hlog0, <- app_assoc. reflexivity.
  - rewrite list_limits_app, Hl0. simpl.
    rewrite list_limits_modify_events. reflexivity.
  - rewrite modify_calls_app, Hm0. simpl. apply modify_calls_events.
Qed.

(** C9 (amended) — the listing request of [mark_as_read] carries no
    result limit, and it is the only listing request of the call: one
    response is read, whatever else it holds (a [nextPageToken] is never
    followed).  When that response carries [N] identifiers and the label
    removals of the run are accepted, all [N] are modified, in order,
    whatever [MAX_EMAILS] is.  The requests of [read_inbox] and
    [search_emails] carry [min(limit, MAX_EMAILS)]. *)
Theorem mark_as_read_has_no_cap :
  forall (X : Type) (E : Externals X) (cfg : Config),
    (forall args w, exists evs,
        log (snd (call_tool E cfg (lit "mark_as_read") args w)) = log w ++ evs /\
        Forall (fun m => m = None) (list_limits evs)) /\
    (forall d subject mailbox w svc w1,
        dict_get (lit "subject") d = Some subject ->
        get (VDict d) (lit "mailbox") (VStr (lit "INBOX")) = Ok (VStr mailbox) ->
        get_gmail_service E w = (Ok svc, w1) ->
        exists evs,
          log (snd (call_tool E cfg (lit "mark_as_read") (VDict d) w))
          = log w ++ evs /\
          list_limits evs = [None]) /\
    (forall d subject mailbox w svc w1 results x2 entries ids acks x3,
        dict_get (lit "subject") d = Some subject ->
        get (VDict d) (lit "mailbox") (VStr (lit "INBOX")) = Ok (VStr mailbox) ->
        get_gmail_service E w = (Ok svc, w1) ->
        execute E (outside w1) svc
          (ReqList (unread_query E subject mailbox) None) = (Ok results, x2) ->
        get results (lit "messages") (VList []) = Ok (VList entries) ->
        Forall2 has_id entries ids ->
        answers E svc (map removal ids) x2 = Some (acks, x3) ->
        exists evs,
          log (snd (call_tool E cfg (lit "mark_as_read") (VDict d) w))
          = log w ++ evs /\
          modify_calls evs = ids /\
          List.length (modify_calls evs) = List.length entries) /\
    (forall name args w,
        name = lit "read_inbox" \/ name = lit "search_emails" ->
        exists evs,
          log (snd (call_tool E cfg name args w)) = log w ++ evs /\
          Forall (capped_limit cfg args) (list_limits evs)).
Proof.
  intros X E cfg. split; [|split; [|split]].
  - intros args w. rewrite dispatch_mark_as_read.
    destruct (mark_as_read_tool E args w) as [r w'] eqn:Hrun.
    destruct (emits_mark_as_read_tool X E args w r w' Hrun) as (evs & Hlog & Hall).
    exists evs. split; [exact Hlog|]. apply list_limits_Forall in Hall. exact Hall.
  - intros d subject mailbox w svc w1 Hsub Hmb Hsvc.
    rewrite dispatch_mark_as_read. unfold mark_as_read_tool.
    simpl getitem. rewrite Hsub, bind_lift, Hmb, bind_lift, try_ret_world.
    eapply mark_as_read_body_lists_once; [exact Hsvc|reflexivity].
  - intros d subject mailbox w svc w1 results x2 entries ids acks x3
           Hsub Hmb Hsvc Hlist Hmsgs Hids Hans.
    destruct (mark_as_read_events X E cfg d subject mailbox w svc w1 results x2
                entries ids acks x3 Hsub Hmb Hsvc Hlist Hmsgs Hids Hans)
      as (evs & _ & Hlog & _ & Hm).
    exists evs. rewrite Hm. split; [exact Hlog|]. split; [reflexivity|].
    symmetry. exact (Forall2_length Hids).
  - intros name args w Hname.
    assert (Hem : emits (listing_with (capped_limit cfg args))
                    (call_tool E cfg name args)).
    { destruct Hname; subst name.
      - rewrite dispatch_read_inbox. apply emits_read_inbox_tool.
      - rewrite dispatch_search_emails. apply emits_search_emails_tool. }
    destruct (call_tool E cfg name args w) as [r w'] eqn:Hrun.
    destruct (Hem _ _ _ Hrun) as (evs & Hlog & Hall).
    exists evs. split; [exact Hlog|]. apply list_limits_Forall in Hall. exact Hall.
Qed.

Lemma mark_as_read_has_no_cap_witness :
  (MAX_EMAILS small_config < 3)%Z /\
  modify_calls
    (log (snd (call_tool (reliable ["a"; "b"; "c"]%string) small_config
                 (lit "mark_as_read")
                 (args_of [("subject"%string, VStr (lit "Invoice"))]) start)))
  = [VStr (lit "a"); VStr (lit "b"); VStr (lit "c")].
Proof.
  split; [reflexivity|].
  assert (Hids : Forall2 has_id (map entry ["a"; "b"; "c"]%string)
                   [VStr (lit "a"); VStr (lit "b"); VStr (lit "c")])
    by (repeat constructor).
  destruct (mark_as_read_has_no_cap nat (reliable ["a"; "b"; "c"]%string)
              small_config) as (_ & _ & Hall & _).
  destruct (Hall [(lit "subject", VStr (lit "Invoice"))] (VStr (lit "Invoice"))
              (lit "INBOX") start the_service authorized
              (listing_of ["a"; "b"; "c"]%string) 1%nat
              (map entry ["a"; "b"; "c"]%string)
              [VStr (lit "a"); VStr (lit "b"); VStr (lit "c")]
              [VDict []; VDict []; VDict []] 4%nat
              eq_refl eq_refl eq_refl eq_refl eq_refl
              Hids eq_refl)
    as (evs & Hlog & Hm & _).
  unfold args_of. simpl map. rewrite Hlog. exact Hm.
Defined.

(** C9, as stated, fails on a mailbox with more matches than one page
    holds.  Here 101 unread messages match; the one listing request,
    sent without a limit, is answered with the first 100 identifiers and
    a [nextPageToken]; 100 label removals follow and the call reports
    100, although the per-request maximum is 50: no cap is applied, yet
    the 101st message is neither listed nor modified, and stays
    unread. *)
Lemma mark_as_read_reads_one_page :
  List.length (numbered 101) = 101%nat /\
  (MAX_EMAILS config < 101)%Z /\
  fst (call_tool paged config (lit "mark_as_read")
         (args_of [("subject"%string, VStr (lit "Invoice"))])
         (mailbox_of (numbered 101)))
  = Ok (one (lit "Marked 100 email(s) as read")) /\
  list_limits
    (log (snd (call_tool paged config (lit "mark_as_read")
                 (args_of [("subject"%string, VStr (lit "Invoice"))])
                 (mailbox_of (numbered 101)))))
  = [None] /\
  modify_calls
    (log (snd (call_tool paged config (lit "mark_as_read")
                 (args_of [("subject"%string, VStr (lit "Invoice"))])
                 (mailbox_of (numbered 101)))))
  = map VStr (firstn 100 (numbered 101)) /\
  List.length
    (modify_calls
       (log (snd (call_tool paged config (lit "mark_as_read")
                    (args_of [("subject"%string, VStr (lit "Invoice"))])
                    (mailbox_of (numbered 101))))))
  <> List.length (numbered 101) /\
  outside (snd (call_tool paged config (lit "mark_as_read")
                  (args_of [("subject"%string, VStr (lit "Invoice"))])
                  (mailbox_of (numbered 101))))
  = [lit "101"].
Proof. vm_compute. repeat split; try reflexivity. discriminate. Qed.

(** C6 (amended) — when the session is obtained, the unread-matching
    listing answers with [N] entries, each carrying an identifier, and
    the label removals of the run are accepted, exactly [N]
    label-removal calls are issued, one per identifier in listing order,
    and the call returns one text without the error marker:
    "Marked N email(s) as read" when [N >= 1], and
    "No unread emails found with subject '<subject>'", which states no
    count, when [N = 0]. *)
Theorem mark_as_read_reports_matches :
  forall (X : Type) (E : Externals X) (cfg : Config)
         d subject mailbox w svc w1 results x2 entries ids acks x3,
    dict_get (lit "subject") d = Some subject ->
    get (VDict d) (lit "mailbox") (VStr (lit "INBOX")) = Ok (VStr mailbox) ->
    get_gmail_service E w = (Ok svc, w1) ->
    execute E (outside w1) svc
      (ReqList (unread_query E subject mailbox) None) = (Ok results, x2) ->
    get results (lit "messages") (VList []) = Ok (VList entries) ->
    Forall2 has_id entries ids ->
    answers E svc (map removal ids) x2 = Some (acks, x3) ->
    exists text evs,
      fst (call_tool E cfg (lit "mark_as_read") (VDict d) w) = Ok (one text) /\
      log (snd (call_tool E cfg (lit "mark_as_read") (VDict d) w)) = log w ++ evs /\
      modify_calls evs = ids /\
      List.length (modify_calls evs) = List.length entries /\
      is_error_text text = false /\
      text = match entries with
             | [] => lit "No unread emails found with subject '"
                     ++ fmt E subject ++ lit "'"
             | _ => lit "Marked " ++ str_of_Z (Z.of_nat (List.length entries))
                    ++ lit " email(s) as read"
             end.
Proof.
  intros X E cfg d subject mailbox w svc w1 results x2 entries ids acks x3
         Hsub Hmb Hsvc Hlist Hmsgs Hids Hans.
  destruct (mark_as_read_events X E cfg d subject mailbox w svc w1 results x2
              entries ids acks x3 Hsub Hmb Hsvc Hlist Hmsgs Hids Hans)
    as (evs & Htext & Hlog & _ & Hm).
  pose proof (Forall2_length Hids) as Hlen.
  eexists. exists evs. split; [exact Htext|]. split; [exact Hlog|].
  split; [exact Hm|]. split; [rewrite Hm; symmetry; exact Hlen|].
  split.
  - destruct ids; reflexivity.
  - destruct Hids; [reflexivity|]. cbn [List.length] in *.
    rewrite Hlen. reflexivity.
Qed.

Lemma mark_as_read_reports_matches_witness :
  fst (call_tool (reliable ["a"; "b"; "c"]%string) config (lit "mark_as_read")
         (args_of [("subject"%string, VStr (lit "Invoice"))]) start)
  = Ok (one (lit "Marked 3 email(s) as read")).
Proof.
  assert (Hids : Forall2 has_id (map entry ["a"; "b"; "c"]%string)
                   [VStr (lit "a"); VStr (lit "b"); VStr (lit "c")])
    by (repeat constructor).
  destruct (mark_as_read_reports_matches nat (reliable ["a"; "b"; "c"]%string)
              config [(lit "subject", VStr (lit "Invoice"))]
              (VStr (lit "Invoice")) (lit "INBOX") start the_service authorized
              (listing_of ["a"; "b"; "c"]%string) 1%nat
              (map entry ["a"; "b"; "c"]%string)
              [VStr (lit "a"); VStr (lit "b"); VStr (lit "c")]
              [VDict []; VDict []; VDict []] 4%nat
              eq_refl eq_refl eq_refl eq_refl eq_refl
              Hids eq_refl)
    as (text & evs & Hfst & _ & _ & _ & _ & Htext).
  unfold args_of. simpl map. rewrite Hfst, Htext. reflexivity.
Defined.

(** C6, as stated, fails at [N = 0]: the text returned for zero matches
    is the "No unread emails found" message; it holds no digit, so it
    reports no count, although the call is a success that issues no
    label removal. *)
Lemma mark_as_read_zero_matches_states_no_count :
  fst (call_tool (reliable []) config (lit "mark_as_read")
         (args_of [("subject"%string, VStr (lit "Invoice"));
                   ("mailbox"%string, VStr (lit "INBOX"))]) start)
  = Ok (one (lit "No unread emails found with subject 'Invoice'")) /\
  existsb is_digit (lit "No unread emails found with subject 'Invoice'") = false /\
  lit "No unread emails found with subject 'Invoice'"
  <> lit "Marked 0 email(s) as read" /\
  modify_calls
    (log (snd (call_tool (reliable []) config (lit "mark_as_read")
                 (args_of [("subject"%string, VStr (lit "Invoice"));
                           ("mailbox"%string, VStr (lit "INBOX"))]) start)))
  = [].
Proof.
  split; [reflexivity|]. split; [reflexivity|]. split; [discriminate|reflexivity].
Qed.

(** ** Errors raised inside a handler *)

Lemma try_except_caught {X A} (body : M X A) (h : exn -> M X A) w e w' :
  body w = (Raise e, w') -> is_Exception e = true ->
  try_except body h w = h e w'.
Proof.
  intros Hbody He. unfold try_except. rewrite Hbody.
  destruct e; [reflexivity|discriminate].
Qed.

Lemma try_except_returned {X A} (body : M X A) (h : exn -> M X A) w a w' :
  body w = (Ok a, w') -> try_except body h w = (Ok a, w').
Proof. intros Hbody. unfold try_except. rewrite Hbody. reflexivity. Qed.



(** ** Required arguments *)





(** ** Saving the token *)

Lemma fold_appends data acc :
  fold_left apply_op (map FAppend data) (Some acc) = Some (acc ++ data).
Proof.
  revert acc. induction data as [|c data IH]; intros acc; simpl.
  - rewrite app_nil_r. reflexivity.
  - rewrite IH, <- app_assoc. reflexivity.
Qed.

(** C3 (amended) — [get_gmail_service] saves the token with one
    [write_text] on the token file itself.  A save that is not
    interrupted leaves exactly the new record.  A save interrupted
    before the file is opened leaves the file as it was; interrupted
    after [k] characters were written, it leaves the first [k] characters
    of the new record — an empty file when [k = 0] — and nothing of the
    record stored before. *)
Theorem write_text_overwrites_in_place :
  forall (X : Type) (data : str) (file : option str) (k : nat) (w : World X),
    crash_after 0 data file = file /\
    crash_after (S k) data file = Some (firstn k data) /\
    crash_after (S (List.length data)) data file = Some data /\
    (token_writable w = true ->
     token_file (snd (write_text data w))
     = crash_after (S (List.length data)) data (token_file w)).
Proof.
  intros X data file k w.
  assert (Hk : forall n, crash_after (S n) data file = Some (firstn n data)).
  { intros n. unfold crash_after, write_text_ops. simpl.
    rewrite firstn_map, fold_appends. reflexivity. }
  split; [reflexivity|]. split; [apply Hk|]. split.
  - rewrite Hk, firstn_all. reflexivity.
  - intros Hw. unfold write_text. rewrite Hw. simpl.
    symmetry. unfold crash_after, write_text_ops. simpl.
    rewrite firstn_all2 by (rewrite length_map; lia).
    rewrite fold_appends. reflexivity.
Qed.

Lemma write_text_overwrites_in_place_witness :
  token_file (snd (write_text fresh_token start)) = Some fresh_token.
Proof.
  destruct (write_text_overwrites_in_place nat fresh_token
              (token_file start) 0 start) as (_ & _ & Hall & Hsave).
  rewrite (Hsave eq_refl). exact Hall.
Defined.

(** C3, as stated, fails: a save of a new record that stops right after
    the file is opened leaves an empty token file, and one that stops
    four characters later leaves "{'to"; in both cases the record stored
    before is gone. *)
Lemma interrupted_save_loses_stored_token :
  crash_after 1 fresh_token (Some stored_token) = Some [] /\
  crash_after 1 fresh_token (Some stored_token) <> Some stored_token /\
  crash_after 5 fresh_token (Some stored_token) = Some (lit "{'to") /\
  crash_after 5 fresh_token (Some stored_token) <> Some stored_token.
Proof. repeat split; try reflexivity; discriminate. Qed.

(** ** The cached session *)

Lemma session_cached X (E : Externals X) w s :
  gmail_service w = Some s -> get_gmail_service E w = (Ok s, w).
Proof. intros H. unfold get_gmail_service. rewrite H. reflexivity. Qed.

Lemma auth_round_trips_app evs1 evs2 :
  auth_round_trips (evs1 ++ evs2)
  = (auth_round_trips evs1 + auth_round_trips evs2)%nat.
Proof.
  induction evs1 as [|ev evs1 IH]; simpl; [reflexivity|].
  destruct ev; simpl; rewrite IH; reflexivity.
Qed.

Section RoundTrips.

Variable X : Type.
Variable E : Externals X.

Lemma trips_silent {A} (m : M X A) n :
  (forall w, snd (m w) = w) -> round_trips_at_most n m.
Proof.
  intros Hm w r w' Hrun. pose proof (Hm w) as Hw. rewrite Hrun in Hw.
  simpl in Hw. subst w'. exists []. rewrite app_nil_r. simpl. split; [auto|lia].
Qed.

Lemma trips_bind {A B} (m : M X A) (k : A -> M X B) n1 n2 :
  round_trips_at_most n1 m -> (forall a, round_trips_at_most n2 (k a)) ->
  round_trips_at_most (n1 + n2) (bind m k).
Proof.
  intros Hm Hk w r w' Hrun. unfold bind in Hrun.
  destruct (m w) as [[a|e] w1] eqn:Hmw.
  - destruct (Hm _ _ _ Hmw) as (evs1 & Hl1 & Ha1).
    destruct (Hk a _ _ _ Hrun) as (evs2 & Hl2 & Ha2).
    exists (evs1 ++ evs2). split.
    + rewrite Hl2, Hl1, app_assoc. reflexivity.
    + rewrite auth_round_trips_app. lia.
  - inversion Hrun; subst.
    destruct (Hm _ _ _ Hmw) as (evs1 & Hl1 & Ha1).
    exists evs1. split; [exact Hl1|lia].
Qed.

Lemma trips_call_outside {A} ev (f : X -> Res A * X) :
  round_trips_at_most (auth_round_trips [ev]) (call_outside ev f).
Proof.
  intros w r w' Hrun. unfold call_outside in Hrun.
  destruct (f (outside w)) as [r0 x]. inversion Hrun; subst.
  exists [ev]. split; [reflexivity|lia].
Qed.

Lemma trips_consent : round_trips_at_most 1 (consent E).
Proof.
  intros w r w' Hrun. unfold consent in Hrun.
  destruct (credentials_file w).
  - exact (trips_call_outside EvConsent (run_local_server E) w r w' Hrun).
  - inversion Hrun; subst. exists []. rewrite app_nil_r. simpl. split; [auto|lia].
Qed.

Lemma trips_write_text data : round_trips_at_most 0 (write_text (X:=X) data).
Proof.
  intros w r w' Hrun. unfold write_text in Hrun.
  destruct (token_writable w); inversion Hrun; subst.
  - exists [EvWriteToken data]. simpl. split; [reflexivity|lia].
  - exists []. rewrite app_nil_r. simpl. split; [auto|lia].
Qed.

Lemma trips_acquire creds : round_trips_at_most 1 (acquire E creds).
Proof.
  unfold acquire. change 1%nat with (1 + (0 + 0))%nat.
  apply trips_bind.
  - destruct creds as [c|]; [|apply trips_consent].
    destruct (expired c && str_truthy (refresh_token c)).
    + apply (trips_call_outside EvRefresh).
    + apply trips_consent.
  - intros c. apply trips_bind; [apply trips_write_text|].
    intros _. apply trips_silent. reflexivity.
Qed.

Lemma trips_load_token : round_trips_at_most 0 (load_token E).
Proof.
  apply trips_silent. intros w. unfold load_token.
  destruct (token_file w); [|reflexivity].
  destruct (from_authorized_user_file E (outside w) s); reflexivity.
Qed.

Lemma trips_get_gmail_service : round_trips_at_most 1 (get_gmail_service E).
Proof.
  intros w r w' Hrun. unfold get_gmail_service in Hrun.
  destruct (gmail_service w).
  - inversion Hrun; subst. exists []. rewrite app_nil_r. simpl. split; [auto|lia].
  - revert Hrun. generalize w r w'.
    change (round_trips_at_most (0 + (1 + (0 + 0)))
              (bind (load_token E) (fun creds =>
               bind match creds with
                    | Some c => if valid c then ret c else acquire E creds
                    | None => acquire E creds
                    end (fun creds0 =>
               bind (call_outside EvBuild (fun x => build E x creds0)) (fun s =>
               fun w'0 => (Ok s, set_service s w'0)))))).
    apply trips_bind; [apply trips_load_token|]. intros creds.
    apply trips_bind.
    + destruct creds as [c|]; [destruct (valid c)|];
        first [apply trips_acquire | apply trips_silent; reflexivity].
    + intros c. apply trips_bind; [apply (trips_call_outside EvBuild)|].
      intros s w0 r0 w0' Hrun. inversion Hrun; subst.
      exists []. simpl. rewrite app_nil_r. split; [auto|lia].
Qed.

Lemma bind_returned {A B} (m : M X A) (k : A -> M X B) w b w2 :
  bind m k w = (Ok b, w2) ->
  exists a w1, m w = (Ok a, w1) /\ k a w1 = (Ok b, w2).
Proof.
  unfold bind. intros H. destruct (m w) as [[a|e] w1]; [|discriminate].
  exists a, w1. auto.
Qed.

(** A call that returns has filled the cache. *)
Lemma session_stored w s w1 :
  get_gmail_service E w = (Ok s, w1) -> gmail_service w1 = Some s.
Proof.
  intros H. unfold get_gmail_service in H.
  destruct (gmail_service w) as [s0|] eqn:Hcache.
  - inversion H; subst. exact Hcache.
  - apply bind_returned in H. destruct H as (creds & wa & _ & H).
    apply bind_returned in H. destruct H as (c & wb & _ & H).
    apply bind_returned in H. destruct H as (s1 & wc & _ & H).
    inversion H; subst. reflexivity.
Qed.

Lemma sessions_cached w s n :
  gmail_service w = Some s -> sessions E n w = (repeat (Ok s) n, w).
Proof.
  intros Hs. induction n as [|n IH]; simpl; [reflexivity|].
  rewrite (session_cached X E w s Hs), IH. reflexivity.
Qed.

End RoundTrips.

(** C4 (amended) — once a call of [get_gmail_service] has returned a
    session, every later call in the process returns that same session
    and touches nothing outside the process: no refresh, no consent
    flow, no file write, whether or not the token has expired meanwhile.
    The call that returned made at most one authorization round-trip
    itself.  (A call that raises leaves the cache empty.) *)
Theorem session_is_cached_after_success :
  forall (X : Type) (E : Externals X) (w w1 : World X) (s : Service),
    get_gmail_service E w = (Ok s, w1) ->
    (exists evs, log w1 = log w ++ evs /\ (auth_round_trips evs <= 1)%nat) /\
    get_gmail_service E w1 = (Ok s, w1) /\
    forall n, sessions E n w1 = (repeat (Ok s) n, w1).
Proof.
  intros X E w w1 s H.
  pose proof (session_stored X E w s w1 H) as Hs.
  split; [exact (trips_get_gmail_service X E w (Ok s) w1 H)|].
  split; [apply session_cached; exact Hs|].
  intros n. apply sessions_cached. exact Hs.
Qed.

Lemma session_is_cached_after_success_witness :
  sessions (reliable []) 3 authorized
  = ([Ok the_service; Ok the_service; Ok the_service], authorized).
Proof.
  destruct (session_is_cached_after_success nat (reliable []) start authorized
              the_service eq_refl) as (_ & _ & Hall).
  exact (Hall 3%nat).
Defined.

(** C4, as stated, fails for a pair of calls of which the first raises:
    with an expired token whose refresh the authorization server
    rejects, each of two sequential calls makes its own round-trip to
    the authorization server, and neither returns a session. *)
Lemma second_call_repeats_failed_refresh :
  fst (sessions refresh_rejected 2 start)
  = [Raise (Exc "RefreshError" (lit "invalid_grant"));
     Raise (Exc "RefreshError" (lit "invalid_grant"))] /\
  log (snd (sessions refresh_rejected 2 start)) = [EvRefresh; EvRefresh] /\
  auth_round_trips (log (snd (sessions refresh_rejected 2 start))) = 2%nat.
Proof. repeat split. Qed.

(** ** The normalizer *)

Lemma rbind_ok {A B} (r : Res A) (k : A -> Res B) b :
  rbind r k = Ok b -> exists a, r = Ok a /\ k a = Ok b.
Proof. destruct r as [a|e]; simpl; [eauto|discriminate]. Qed.

(** The body of a normalized message is the extracted text, stripped. *)
Lemma parse_body msg n :
  parse_gmail_message msg = Ok n ->
  exists t, extract_body msg = Ok t /\ msg_body n = strip t.
Proof.
  unfold parse_gmail_message. intros H.
  apply rbind_ok in H. destruct H as (payload & _ & H).
  apply rbind_ok in H. destruct H as (hs & _ & H).
  apply rbind_ok in H. destruct H as (hs' & _ & H).
  apply rbind_ok in H. destruct H as (headers & _ & H).
  apply rbind_ok in H. destruct H as (body & Hbody & H).
  apply rbind_ok in H. destruct H as (id & _ & H).
  inversion H; subst. exists body. auto.
Qed.

Lemma scan_parts_first pre part post b data :
  Forall (fun p => mime_is_plain p = Ok false) pre ->
  mime_is_plain part = Ok true ->
  getitem part (lit "body") = Ok b ->
  getitem b (lit "data") = Ok data ->
  scan_parts (pre ++ part :: post) = b64_text data.
Proof.
  intros Hpre Hpart Hb Hdata.
  induction Hpre as [|p pre Hp _ IH]; cbn [app scan_parts].
  - unfold mime_is_plain in Hpart.
    destruct (getitem part (lit "mimeType")) as [mime|]; [|discriminate].
    cbn [rbind] in *. injection Hpart as Hm. rewrite Hm, Hb.
    cbn [rbind]. rewrite Hdata. reflexivity.
  - unfold mime_is_plain in Hp.
    destruct (getitem p (lit "mimeType")) as [mime|]; [|discriminate].
    cbn [rbind] in *. injection Hp as Hm. rewrite Hm. exact IH.
Qed.

Lemma scan_parts_none parts :
  Forall (fun p => mime_is_plain p = Ok false) parts -> scan_parts parts = Ok [].
Proof.
  induction 1 as [|p parts Hp _ IH]; cbn [scan_parts]; [reflexivity|].
  unfold mime_is_plain in Hp.
  destruct (getitem p (lit "mimeType")) as [mime|]; [|discriminate].
  cbn [rbind] in *. injection Hp as Hm. rewrite Hm. exact IH.
Qed.

Lemma build_headers_ok hs :
  forallb header_ok hs = true -> is_ok (build_headers hs) = true.
Proof.
  induction hs as [|h hs IH]; simpl; [reflexivity|].
  intros H. apply andb_prop in H. destruct H as [Hh Hhs].
  destruct h as [| | | | |d]; simpl in Hh; try discriminate.
  simpl. destruct (dict_get (lit "name") d) as [[| | |name| |]|];
    try discriminate.
  destruct (dict_get (lit "value") d) as [value|]; [|discriminate].
  simpl. specialize (IH Hhs).
  destruct (build_headers hs); [reflexivity|discriminate].
Qed.

Lemma scan_parts_ok parts :
  forallb part_ok parts = true -> is_ok (scan_parts parts) = true.
Proof.
  induction parts as [|p parts IH]; simpl; [reflexivity|].
  intros H. apply andb_prop in H. destruct H as [Hp Hparts].
  destruct p as [| | | | |d]; simpl in Hp; try discriminate.
  simpl. destruct (dict_get (lit "mimeType") d) as [mime|]; [|discriminate].
  simpl. destruct (eq_str mime (lit "text/plain")); [|exact (IH Hparts)].
  destruct (dict_get (lit "body") d) as [[| | | | |b]|]; try discriminate.
  simpl. destruct (dict_get (lit "data") b) as [data|]; [|discriminate].
  simpl. exact Hp.
Qed.

Local Open Scope res_scope.

(** [extract_body] on a payload that is a dictionary. *)
Lemma extract_body_payload msg pl :
  getitem msg (lit "payload") = Ok (VDict pl) ->
  extract_body msg =
  match dict_get (lit "parts") pl with
  | Some parts => let? items := iter parts in scan_parts items
  | None =>
      match dict_get (lit "body") pl with
      | Some b =>
          let? has_data := contains (lit "data") b in
          if has_data then let? data := getitem b (lit "data") in b64_text data
          else Ok []
      | None => Ok []
      end
  end.
Proof.
  intros Hpl. unfold extract_body. rewrite Hpl. cbn [rbind contains getitem].
  destruct (dict_get (lit "parts") pl) as [parts|]; cbn [rbind]; [reflexivity|].
  destruct (dict_get (lit "body") pl) as [b|]; cbn [rbind]; reflexivity.
Qed.

(** C7 — body extraction.  The body of a normalized message is the
    extracted text, stripped.  With a parts array, the extracted text
    is the decoded data of the first entry whose [mimeType] is
    [text/plain], looking at the entries of the array only (an array
    without such an entry gives the empty text, whatever its entries
    contain).  Without a parts array it is the decoded data of the
    payload's own body; and when there is neither a parts array nor body
    data, the message normalizes, without error, to the empty body. *)
Theorem body_extraction :
  forall (msg : pyval) (pl : list (str * pyval)),
    getitem msg (lit "payload") = Ok (VDict pl) ->
    (forall n, parse_gmail_message msg = Ok n ->
               exists t, extract_body msg = Ok t /\ msg_body n = strip t) /\
    (forall pre part post b data,
        dict_get (lit "parts") pl = Some (VList (pre ++ part :: post)) ->
        Forall (fun p => mime_is_plain p = Ok false) pre ->
        mime_is_plain part = Ok true ->
        getitem part (lit "body") = Ok b ->
        getitem b (lit "data") = Ok data ->
        extract_body msg = b64_text data) /\
    (forall parts,
        dict_get (lit "parts") pl = Some (VList parts) ->
        Forall (fun p => mime_is_plain p = Ok false) parts ->
        extract_body msg = Ok []) /\
    (forall b data,
        dict_get (lit "parts") pl = None ->
        dict_get (lit "body") pl = Some (VDict b) ->
        dict_get (lit "data") b = Some data ->
        extract_body msg = b64_text data) /\
    (dict_get (lit "parts") pl = None ->
     (dict_get (lit "body") pl = None \/
      exists b, dict_get (lit "body") pl = Some (VDict b) /\
                dict_get (lit "data") b = None) ->
     extract_body msg = Ok [] /\
     forall id hs,
       getitem msg (lit "id") = Ok id ->
       dict_get (lit "headers") pl = Some (VList hs) ->
       forallb header_ok hs = true ->
       exists n, parse_gmail_message msg = Ok n /\ msg_id n = id /\
                 msg_body n = []).
Proof.
  intros msg pl Hpl.
  pose proof (extract_body_payload msg pl Hpl) as Hext.
  split; [intros n; apply parse_body|]. split; [|split; [|split]].
  - intros pre part post b data Hparts Hpre Hpart Hb Hdata.
    rewrite Hext, Hparts. cbn [iter rbind].
    apply scan_parts_first with (b := b); assumption.
  - intros parts Hparts Hnone. rewrite Hext, Hparts. cbn [iter rbind].
    apply scan_parts_none. exact Hnone.
  - intros b data Hparts Hbody Hdata.
    rewrite Hext, Hparts, Hbody. cbn [contains getitem]. rewrite Hdata.
    reflexivity.
  - intros Hparts Hbody.
    assert (Hempty : extract_body msg = Ok []).
    { rewrite Hext, Hparts.
      destruct Hbody as [Hbody|(b & Hbody & Hdata)]; rewrite Hbody;
        [reflexivity|].
      cbn [contains]. rewrite Hdata. reflexivity. }
    split; [exact Hempty|].
    intros id hs Hid Hhs Hok.
    unfold parse_gmail_message. rewrite Hpl. cbn [rbind getitem].
    rewrite Hhs. cbn [rbind iter].
    pose proof (build_headers_ok hs Hok) as Hb.
    destruct (build_headers hs) as [headers|]; [|discriminate].
    cbn [rbind]. rewrite Hempty. cbn [rbind]. rewrite Hid. cbn [rbind].
    eexists. split; [reflexivity|]. split; reflexivity.
Qed.

Lemma body_extraction_witness :
  extract_body multipart_message = Ok (lit " hello " ++ [10%N]) /\
  (exists n, parse_gmail_message multipart_message = Ok n /\
             msg_body n = lit "hello") /\
  (exists n, parse_gmail_message nested_message = Ok n /\ msg_body n = []) /\
  (exists n, parse_gmail_message empty_message = Ok n /\ msg_body n = []).
Proof.
  destruct (body_extraction multipart_message
              [(lit "headers", VList [header "To" "bob@example.org"]);
               (lit "parts",
                VList [VDict [(lit "mimeType", VStr (lit "text/html"));
                              (lit "body", VDict [])];
                       VDict [(lit "mimeType", VStr (lit "text/plain"));
                              (lit "body",
                               VDict [(lit "data", VStr (lit "IGhlbGxvIAo="))])];
                       VDict [(lit "mimeType", VStr (lit "text/plain"));
                              (lit "body",
                               VDict [(lit "data", VStr (lit "d29ybGQ="))])]])]
              eq_refl) as (_ & Hfirst & _).
  split.
  - transitivity (b64_text (VStr (lit "IGhlbGxvIAo="))); [|reflexivity].
    apply Hfirst
      with (pre := [VDict [(lit "mimeType", VStr (lit "text/html"));
                           (lit "body", VDict [])]])
           (part := VDict [(lit "mimeType", VStr (lit "text/plain"));
                           (lit "body",
                            VDict [(lit "data", VStr (lit "IGhlbGxvIAo="))])])
           (post := [VDict [(lit "mimeType", VStr (lit "text/plain"));
                            (lit "body",
                             VDict [(lit "data", VStr (lit "d29ybGQ="))])]])
           (b := VDict [(lit "data", VStr (lit "IGhlbGxvIAo="))]);
      [reflexivity | repeat constructor | reflexivity | reflexivity
       | reflexivity].
  - repeat split; eexists; split; reflexivity.
Defined.

(** ** Where bodies are cut *)





(** ** Totality of the normalizer *)

(** C10 (amended) — [parse_gmail_message] returns its six-field record
    for every message that carries an [id] and a payload with a headers
    list of name/value pairs, provided that every entry of the parts
    array has a [mimeType], that every [text/plain] entry carries body
    data that decodes, and — when there is no parts array — that the
    payload's own body, if present, is a dictionary whose data, if
    present, decodes.  Outside these conditions the lookups can raise: a
    [text/plain] part whose body lacks [data] raises [KeyError]. *)
Theorem parse_gmail_message_total :
  (forall msg,
      parts_precondition msg = true ->
      single_part_ok msg = true ->
      exists n, parse_gmail_message msg = Ok n) /\
  parse_gmail_message Fixture.dataless_message = Raise (KeyError (lit "data")).
Proof.
  split; [|reflexivity].
  intros msg Hpre Hsingle.
  destruct msg as [| | | | |m]; try discriminate.
  unfold parts_precondition in Hpre. unfold single_part_ok in Hsingle.
  destruct (dict_get (lit "id") m) as [id|] eqn:Hid; [|discriminate].
  destruct (dict_get (lit "payload") m) as [[| | | | |pl]|] eqn:Hpl;
    try discriminate.
  destruct (dict_get (lit "headers") pl) as [[| | | |hs|]|] eqn:Hhs;
    try discriminate.
  apply andb_prop in Hpre. destruct Hpre as [Hheaders Hparts].
  pose proof (build_headers_ok hs Hheaders) as Hbuild.
  assert (Hpayload : getitem (VDict m) (lit "payload") = Ok (VDict pl))
    by (cbn [getitem]; rewrite Hpl; reflexivity).
  assert (Hbody : is_ok (extract_body (VDict m)) = true).
  { rewrite (extract_body_payload _ _ Hpayload).
    destruct (dict_get (lit "parts") pl) as [[| | | |parts|]|];
      try discriminate.
    - cbn [iter rbind]. apply scan_parts_ok. exact Hparts.
    - destruct (dict_get (lit "body") pl) as [[| | | | |b]|];
        try discriminate; [|reflexivity].
      cbn [contains getitem rbind].
      destruct (dict_get (lit "data") b) as [data|]; [exact Hsingle|reflexivity]. }
  unfold parse_gmail_message. rewrite Hpayload. cbn [rbind getitem].
  rewrite Hhs. cbn [rbind iter].
  destruct (build_headers hs) as [headers|]; [|discriminate]. cbn [rbind].
  destruct (extract_body (VDict m)) as [body|]; [|discriminate]. cbn [rbind].
  rewrite Hid. cbn [rbind]. eexists. reflexivity.
Qed.

Lemma parse_gmail_message_total_witness :
  exists n, parse_gmail_message multipart_message = Ok n.
Proof.
  exact (proj1 parse_gmail_message_total multipart_message eq_refl eq_refl).
Defined.

(** C10, as stated, fails: a single-part message in Latin-1 has an [id],
    a headers list of name/value pairs and no parts array, so every
    condition on parts holds; its body data is the octet 0xE9, which is
    not UTF-8, and [parse_gmail_message] raises [UnicodeDecodeError]. *)
Lemma single_part_body_can_raise :
  parts_precondition latin1_message = true /\
  urlsafe_b64decode (VStr (lit "6Q==")) = Ok [233%N] /\
  parse_gmail_message latin1_message
  = Raise (UnicodeDecodeError
             "'utf-8' codec can't decode byte: unexpected end of data").
Proof. repeat split. Qed.

(** * Further properties of the code *)

Import Registry Observe Encode Scenario.

(** ** The paths of [get_gmail_service] *)

(** A valid stored token is used as it is: the session is built from it
    with no refresh, no consent flow and no write of the token file. *)
Theorem valid_token_needs_no_authorization :
  forall (X : Type) (E : Externals X) (w : World X) content c s x1,
    gmail_service w = None ->
    token_file w = Some content ->
    from_authorized_user_file E (outside w) content = Ok c ->
    valid c = true ->
    build E (outside w) c = (Ok s, x1) ->
    let w' := snd (get_gmail_service E w) in
    fst (get_gmail_service E w) = Ok s /\
    log w' = log w ++ [EvBuild] /\
    token_file w' = Some content /\
    gmail_service w' = Some s /\
    outside w' = x1.
Proof.
  intros X E w content c s x1 Hcache Htoken Hparse Hvalid Hbuild.
  unfold get_gmail_service. rewrite Hcache.
  unfold bind, load_token. rewrite Htoken, Hparse, Hvalid.
  unfold ret, call_outside. rewrite Hbuild. simpl. auto.
Qed.

Lemma valid_token_needs_no_authorization_witness :
  log (snd (get_gmail_service (reliable []) start)) = [EvBuild].
Proof.
  exact (proj1 (proj2 (valid_token_needs_no_authorization nat (reliable [])
                         start stored_token good_creds the_service O
                         eq_refl eq_refl eq_refl eq_refl eq_refl))).
Defined.

Lemma load_token_parsed X (E : Externals X) w content c :
  token_file w = Some content ->
  from_authorized_user_file E (outside w) content = Ok c ->
  load_token E w = (Ok (Some c), w).
Proof. intros Ht Hp. unfold load_token. rewrite Ht, Hp. reflexivity. Qed.

Lemma load_token_absent X (E : Externals X) w :
  token_file w = None -> load_token E w = (Ok None, w).
Proof. intros Ht. unfold load_token. rewrite Ht. reflexivity. Qed.

(** The end of [get_gmail_service] once [acquire] has returned. *)
Lemma get_gmail_service_acquired X (E : Externals X) w creds c' w2 s x3 :
  gmail_service w = None ->
  load_token E w = (Ok creds, w) ->
  match creds with Some c => valid c = false | None => True end ->
  acquire E creds w = (Ok c', w2) ->
  build E (outside w2) c' = (Ok s, x3) ->
  get_gmail_service E w = (Ok s, set_service s (step_outside EvBuild x3 w2)).
Proof.
  intros Hcache Hload Hvalid Hacq Hbuild.
  unfold get_gmail_service. rewrite Hcache, (bind_ok _ _ _ _ _ Hload).
  assert (Hsel : match creds with
                 | Some c => if valid c then ret c else acquire E creds
                 | None => acquire E creds
                 end = acquire E creds).
  { destruct creds as [c|]; [rewrite Hvalid|]; reflexivity. }
  rewrite Hsel, (bind_ok _ _ _ _ _ Hacq).
  unfold bind, call_outside. rewrite Hbuild. reflexivity.
Qed.

(** [acquire] once its first step (refresh or consent) has returned. *)
Lemma acquire_saved X (E : Externals X) creds w c' w1 :
  match creds with
  | Some c =>
      if expired c && str_truthy (refresh_token c)
      then call_outside EvRefresh (fun x => refresh E x c)
      else consent E
  | None => consent E
  end w = (Ok c', w1) ->
  token_writable w1 = true ->
  acquire E creds w
  = (Ok c', set_token (to_json c')
              (step_outside (EvWriteToken (to_json c')) (outside w1) w1)).
Proof.
  intros Hfirst Hwrite. unfold acquire.
  rewrite (bind_ok _ _ _ _ _ Hfirst).
  unfold bind, write_text. rewrite Hwrite. reflexivity.
Qed.

(** An expired token with a refresh token costs exactly one call to the
    authorization server: the renewed token is written to the token file
    and the session is built from it; the consent flow does not run. *)
Theorem expired_token_is_refreshed_once :
  forall (X : Type) (E : Externals X) (w : World X) content c c' x1 s x2,
    gmail_service w = None ->
    token_file w = Some content ->
    token_writable w = true ->
    from_authorized_user_file E (outside w) content = Ok c ->
    valid c = false ->
    expired c = true ->
    str_truthy (refresh_token c) = true ->
    refresh E (outside w) c = (Ok c', x1) ->
    build E x1 c' = (Ok s, x2) ->
    let w' := snd (get_gmail_service E w) in
    fst (get_gmail_service E w) = Ok s /\
    log w' = log w ++ [EvRefresh; EvWriteToken (to_json c'); EvBuild] /\
    token_file w' = Some (to_json c') /\
    gmail_service w' = Some s /\
    outside w' = x2.
Proof.
  intros X E w content c c' x1 s x2 Hcache Htoken Hwrite Hparse Hvalid
         Hexpired Hrt Hrefresh Hbuild.
  assert (Hacq : acquire E (Some c) w
                 = (Ok c', set_token (to_json c')
                             (step_outside (EvWriteToken (to_json c')) x1
                                (step_outside EvRefresh x1 w)))).
  { apply (acquire_saved X E (Some c) w c' (step_outside EvRefresh x1 w));
      [|exact Hwrite].
    rewrite Hexpired, Hrt. cbn [andb]. unfold call_outside.
    rewrite Hrefresh. reflexivity. }
  rewrite (get_gmail_service_acquired X E w (Some c) c' _ s x2 Hcache
             (load_token_parsed X E w content c Htoken Hparse) Hvalid Hacq
             Hbuild).
  simpl. rewrite <- ?app_assoc. auto.
Qed.

Lemma expired_token_is_refreshed_once_witness :
  log (snd (get_gmail_service renewable start))
  = [EvRefresh; EvWriteToken fresh_token; EvBuild] /\
  token_file (snd (get_gmail_service renewable start)) = Some fresh_token.
Proof.
  destruct (expired_token_is_refreshed_once nat renewable start stored_token
              expired_creds good_creds 1%nat the_service 1%nat
              eq_refl eq_refl eq_refl eq_refl eq_refl eq_refl eq_refl
              eq_refl eq_refl) as (_ & Hlog & Hfile & _).
  split; [exact Hlog|exact Hfile].
Defined.

(** Without a usable token - no token file, or a token that is neither
    valid nor refreshable - the consent flow runs once, provided the
    client-secrets file exists; its token is written to the token file
    and the session is built from it. *)
Theorem unusable_token_runs_consent_once :
  forall (X : Type) (E : Externals X) (w : World X) c' x1 s x2,
    gmail_service w = None ->
    (token_file w = None \/
     exists content c,
       token_file w = Some content /\
       from_authorized_user_file E (outside w) content = Ok c /\
       valid c = false /\
       expired c && str_truthy (refresh_token c) = false) ->
    credentials_file w = true ->
    token_writable w = true ->
    run_local_server E (outside w) = (Ok c', x1) ->
    build E x1 c' = (Ok s, x2) ->
    let w' := snd (get_gmail_service E w) in
    fst (get_gmail_service E w) = Ok s /\
    log w' = log w ++ [EvConsent; EvWriteToken (to_json c'); EvBuild] /\
    token_file w' = Some (to_json c') /\
    gmail_service w' = Some s.
Proof.
  intros X E w c' x1 s x2 Hcache Htoken Hcreds Hwrite Hflow Hbuild.
  assert (Hconsent : consent E w = (Ok c', step_outside EvConsent x1 w)).
  { unfold consent. rewrite Hcreds. unfold call_outside. rewrite Hflow.
    reflexivity. }
  assert (Hget :
            get_gmail_service E w
            = (Ok s, set_service s
                       (step_outside EvBuild x2
                          (set_token (to_json c')
                             (step_outside (EvWriteToken (to_json c')) x1
                                (step_outside EvConsent x1 w)))))).
  { destruct Htoken as [Hnone|(content & c & Hsome & Hparse & Hvalid & Hrt)].
    - apply (get_gmail_service_acquired X E w None c' _ s x2 Hcache
               (load_token_absent X E w Hnone) I); [|exact Hbuild].
      apply (acquire_saved X E None w c' (step_outside EvConsent x1 w));
        [exact Hconsent|exact Hwrite].
    - apply (get_gmail_service_acquired X E w (Some c) c' _ s x2 Hcache
               (load_token_parsed X E w content c Hsome Hparse) Hvalid);
        [|exact Hbuild].
      apply (acquire_saved X E (Some c) w c' (step_outside EvConsent x1 w));
        [|exact Hwrite].
      rewrite Hrt. exact Hconsent. }
  rewrite Hget. simpl. rewrite <- ?app_assoc. auto.
Qed.

Lemma unusable_token_runs_consent_once_witness :
  log (snd (get_gmail_service revoked start))
  = [EvConsent; EvWriteToken fresh_token; EvBuild] /\
  log (snd (get_gmail_service (reliable []) first_run))
  = [EvConsent; EvWriteToken fresh_token; EvBuild].
Proof.
  split.
  - exact (proj1 (proj2 (unusable_token_runs_consent_once nat revoked start
                           good_creds 1%nat the_service 1%nat eq_refl
                           (or_intror
                              (ex_intro _ stored_token
                                 (ex_intro _ revoked_creds
                                    (conj eq_refl
                                       (conj eq_refl (conj eq_refl eq_refl))))))
                           eq_refl eq_refl eq_refl eq_refl))).
  - exact (proj1 (proj2 (unusable_token_runs_consent_once nat (reliable [])
                           first_run good_creds 1%nat the_service 1%nat
                           eq_refl (or_introl eq_refl)
                           eq_refl eq_refl eq_refl eq_refl))).
Defined.

(** What goes wrong during authorization reaches the caller unchanged:
    a token file that does not parse raises before anything outside the
    process is called; a rejected refresh raises after that one call and
    is not followed by the consent flow; a missing client-secrets file
    raises [FileNotFoundError] before the consent flow starts, with a
    message that names the path looked at and the page to download the
    file from.  In all three cases the cache and the token file stay as
    they were. *)
Theorem authorization_failures_propagate :
  forall (X : Type) (E : Externals X) (w : World X),
    gmail_service w = None ->
    (forall content e,
        token_file w = Some content ->
        from_authorized_user_file E (outside w) content = Raise e ->
        get_gmail_service E w = (Raise e, w)) /\
    (forall content c e x1,
        token_file w = Some content ->
        from_authorized_user_file E (outside w) content = Ok c ->
        valid c = false ->
        expired c = true ->
        str_truthy (refresh_token c) = true ->
        refresh E (outside w) c = (Raise e, x1) ->
        get_gmail_service E w = (Raise e, step_outside EvRefresh x1 w)) /\
    ((token_file w = None \/
      exists content c,
        token_file w = Some content /\
        from_authorized_user_file E (outside w) content = Ok c /\
        valid c = false /\
        expired c && str_truthy (refresh_token c) = false) ->
     credentials_file w = false ->
     get_gmail_service E w
     = (Raise (Exc "FileNotFoundError"
                 (lit "credentials.json not found at " ++ creds_path E ++ nl
                  ++ lit "Download from Google Cloud Console: https://console.cloud.google.com/apis/credentials")),
        w)).
Proof.
  intros X E w Hcache. split; [|split].
  - intros content e Htoken Hparse.
    unfold get_gmail_service. rewrite Hcache.
    apply bind_raised. unfold load_token. rewrite Htoken, Hparse. reflexivity.
  - intros content c e x1 Htoken Hparse Hvalid Hexpired Hrt Hrefresh.
    unfold get_gmail_service.
    rewrite Hcache, (bind_ok _ _ _ _ _ (load_token_parsed X E w content c
                                          Htoken Hparse)).
    rewrite Hvalid. apply bind_raised. unfold acquire.
    rewrite Hexpired, Hrt. cbn [andb]. apply bind_raised.
    unfold call_outside. rewrite Hrefresh. reflexivity.
  - intros Htoken Hcreds.
    assert (Hconsent :
              consent E w
              = (Raise (Exc "FileNotFoundError" (credentials_missing E)), w)).
    { unfold consent. rewrite Hcreds. reflexivity. }
    fold (credentials_missing E).
    unfold get_gmail_service. rewrite Hcache.
    destruct Htoken as [Hnone|(content & c & Hsome & Hparse & Hvalid & Hrt)].
    + rewrite (bind_ok _ _ _ _ _ (load_token_absent X E w Hnone)).
      apply bind_raised. unfold acquire. apply bind_raised. exact Hconsent.
    + rewrite (bind_ok _ _ _ _ _ (load_token_parsed X E w content c
                                    Hsome Hparse)).
      rewrite Hvalid. apply bind_raised. unfold acquire. rewrite Hrt.
      apply bind_raised. exact Hconsent.
Qed.

Lemma authorization_failures_propagate_witness :
  get_gmail_service corrupt_token start
  = (Raise (Exc "ValueError" (lit "Expecting value")), start) /\
  log (snd (get_gmail_service refresh_rejected start)) = [EvRefresh] /\
  get_gmail_service (reliable []) unprovisioned
  = (Raise (Exc "FileNotFoundError"
              (lit "credentials.json not found at /srv/mcp-server-email/credentials.json"
               ++ nl
               ++ lit "Download from Google Cloud Console: https://console.cloud.google.com/apis/credentials")),
     unprovisioned).
Proof.
  split; [|split].
  - exact (proj1 (authorization_failures_propagate nat corrupt_token start
                    eq_refl) stored_token _ eq_refl eq_refl).
  - rewrite (proj1 (proj2 (authorization_failures_propagate nat
                             refresh_rejected start eq_refl))
               stored_token expired_creds
               (Exc "RefreshError" (lit "invalid_grant")) 1%nat
               eq_refl eq_refl eq_refl eq_refl eq_refl eq_refl).
    reflexivity.
  - exact (proj2 (proj2 (authorization_failures_propagate nat (reliable [])
                           unprovisioned eq_refl))
             (or_introl eq_refl) eq_refl).
Defined.

(** ** What a call may change inside the process *)

Section Frames.

Variable X : Type.
Variable E : Externals X.
Variable cfg : Config.

Lemma keeps_cache_bind {A B} (m : M X A) (k : A -> M X B) :
  keeps_cache m -> (forall a, keeps_cache (k a)) -> keeps_cache (bind m k).
Proof.
  intros Hm Hk w r w' Hrun. unfold bind in Hrun.
  destruct (m w) as [[a|e] w1] eqn:Hmw.
  - rewrite (Hk a _ _ _ Hrun). exact (Hm _ _ _ Hmw).
  - inversion Hrun; subst. exact (Hm _ _ _ Hmw).
Qed.

Lemma keeps_cache_call_outside {A} ev (f : X -> Res A * X) :
  keeps_cache (call_outside ev f).
Proof.
  intros w r w' Hrun. unfold call_outside in Hrun.
  destruct (f (outside w)). inversion Hrun; subst. reflexivity.
Qed.

Lemma keeps_cache_consent : keeps_cache (consent E).
Proof.
  intros w r w' Hrun. unfold consent in Hrun.
  destruct (credentials_file w).
  - exact (keeps_cache_call_outside EvConsent _ w r w' Hrun).
  - inversion Hrun; subst. reflexivity.
Qed.

Lemma keeps_cache_acquire creds : keeps_cache (acquire E creds).
Proof.
  unfold acquire. apply keeps_cache_bind.
  - destruct creds as [c|]; [|apply keeps_cache_consent].
    destruct (expired c && str_truthy (refresh_token c)).
    + apply keeps_cache_call_outside.
    + apply keeps_cache_consent.
  - intros c. apply keeps_cache_bind.
    + intros w r w' Hrun. unfold write_text in Hrun.
      destruct (token_writable w); inversion Hrun; subst; reflexivity.
    + intros _ w r w' Hrun. inversion Hrun; subst. reflexivity.
Qed.

Lemma keeps_cache_load_token : keeps_cache (load_token E).
Proof.
  intros w r w' Hrun. unfold load_token in Hrun.
  destruct (token_file w) as [content|].
  - destruct (from_authorized_user_file E (outside w) content);
      inversion Hrun; subst; reflexivity.
  - inversion Hrun; subst. reflexivity.
Qed.

Lemma bind_raised_inv {A B} (m : M X A) (k : A -> M X B) w e w' :
  bind m k w = (Raise e, w') ->
  m w = (Raise e, w') \/ exists a w1, m w = (Ok a, w1) /\ k a w1 = (Raise e, w').
Proof.
  unfold bind. intros H. destruct (m w) as [[a|e0] w1].
  - right. exists a, w1. auto.
  - left. inversion H; subst. reflexivity.
Qed.

End Frames.

(** A call of [get_gmail_service] that raises found the cache empty and
    leaves it empty: only a call that returns stores a session. *)
Theorem failed_authorization_leaves_cache_empty :
  forall (X : Type) (E : Externals X) (w w' : World X) (e : exn),
    get_gmail_service E w = (Raise e, w') ->
    gmail_service w = None /\ gmail_service w' = None.
Proof.
  intros X E w w' e H. unfold get_gmail_service in H.
  destruct (gmail_service w) as [s|] eqn:Hcache; [discriminate|].
  split; [reflexivity|]. rewrite <- Hcache.
  apply bind_raised_inv in H. destruct H as [H|(creds & w1 & H1 & H)].
  { exact (keeps_cache_load_token X E _ _ _ H). }
  rewrite <- (keeps_cache_load_token X E _ _ _ H1).
  apply bind_raised_inv in H. destruct H as [H|(c & w2 & H2 & H)].
  { destruct creds as [c|]; [destruct (valid c)|];
      first [discriminate H | exact (keeps_cache_acquire X E _ _ _ _ H)]. }
  assert (Hw2 : gmail_service w2 = gmail_service w1).
  { destruct creds as [c0|]; [destruct (valid c0)|];
      first [ inversion H2; subst; reflexivity
            | exact (keeps_cache_acquire X E _ _ _ _ H2)]. }
  rewrite <- Hw2.
  apply bind_raised_inv in H. destruct H as [H|(s & w3 & _ & H)].
  - exact (keeps_cache_call_outside X EvBuild _ _ _ _ H).
  - discriminate H.
Qed.

Lemma failed_authorization_leaves_cache_empty_witness :
  gmail_service (snd (get_gmail_service refresh_rejected start)) = None.
Proof.
  exact (proj2 (failed_authorization_leaves_cache_empty nat refresh_rejected
                  start _ _ eq_refl)).
Defined.

Section KeepsSession.

Variable X : Type.
Variable E : Externals X.
Variable cfg : Config.

Lemma keeps_session_silent {A} Q (m : M X A) :
  (forall w, snd (m w) = w) -> keeps_session Q m.
Proof.
  intros Hm w r w' s Hs Hrun. pose proof (Hm w) as Hw. rewrite Hrun in Hw.
  simpl in Hw. subst w'. split; [exact Hs|]. split; [reflexivity|].
  exists []. rewrite app_nil_r. auto.
Qed.

Lemma keeps_session_bind {A B} Q (m : M X A) (k : A -> M X B) :
  keeps_session Q m -> (forall a, keeps_session Q (k a)) ->
  keeps_session Q (bind m k).
Proof.
  intros Hm Hk w r w' s Hs Hrun. unfold bind in Hrun.
  destruct (m w) as [[a|e] w1] eqn:Hmw.
  - destruct (Hm _ _ _ _ Hs Hmw) as (Hs1 & Ht1 & evs1 & Hl1 & Ha1).
    destruct (Hk a _ _ _ _ Hs1 Hrun) as (Hs2 & Ht2 & evs2 & Hl2 & Ha2).
    split; [exact Hs2|]. split; [congruence|].
    exists (evs1 ++ evs2). split.
    + rewrite Hl2, Hl1, app_assoc. reflexivity.
    + apply Forall_app. auto.
  - inversion Hrun; subst. exact (Hm _ _ _ _ Hs Hmw).
Qed.

Lemma keeps_session_try {A} Q (m : M X A) (h : exn -> A) :
  keeps_session Q m -> keeps_session Q (try_except m (fun e => ret (h e))).
Proof.
  intros Hm w r w' s Hs Hrun. unfold try_except in Hrun.
  destruct (m w) as [[a|[c msg|c msg]] w1] eqn:Hmw;
    inversion Hrun; subst; exact (Hm _ _ _ _ Hs Hmw).
Qed.

Lemma keeps_session_run (Q : request -> Prop) svc r :
  Q r -> keeps_session Q (run E svc r).
Proof.
  intros Hr w r0 w' s Hs Hrun. unfold run, call_outside in Hrun.
  destruct (execute E (outside w) svc r). inversion Hrun; subst.
  split; [exact Hs|]. split; [reflexivity|].
  exists [EvExecute r]. split; [reflexivity|]. repeat constructor. exact Hr.
Qed.

Lemma keeps_session_library {A} Q (f : X -> Res A * X) :
  keeps_session Q (call_library f).
Proof.
  intros w r0 w' s Hs Hrun. unfold call_library in Hrun.
  destruct (f (outside w)). inversion Hrun; subst.
  split; [exact Hs|]. split; [reflexivity|].
  exists []. simpl. rewrite app_nil_r. auto.
Qed.

Lemma keeps_session_get Q : keeps_session Q (get_gmail_service E).
Proof.
  intros w r w' s Hs Hrun.
  rewrite (session_cached X E w s Hs) in Hrun. inversion Hrun; subst.
  split; [exact Hs|]. split; [reflexivity|].
  exists []. rewrite app_nil_r. auto.
Qed.

Ltac keeps_steps :=
  repeat first
    [ apply keeps_session_get
    | apply keeps_session_run; simpl; auto
    | apply keeps_session_library
    | apply keeps_session_silent; reflexivity
    | apply keeps_session_bind; [|intros ?] ].

Lemma keeps_session_fetch_all svc items :
  keeps_session read_request (fetch_all E svc items).
Proof.
  induction items as [|msg rest IH]; simpl.
  - apply keeps_session_silent. reflexivity.
  - keeps_steps. exact IH.
Qed.

Lemma keeps_session_modify_all svc items :
  keeps_session mark_request (modify_all E svc items).
Proof.
  induction items as [|msg rest IH]; simpl.
  - apply keeps_session_silent. reflexivity.
  - keeps_steps. exact IH.
Qed.

Lemma keeps_session_send to subject body :
  keeps_session send_request (send_email_body E cfg to subject body).
Proof. unfold send_email_body. keeps_steps. Qed.

Lemma keeps_session_read_inbox mailbox limit unread :
  keeps_session read_request (read_inbox_body E mailbox limit unread).
Proof.
  unfold read_inbox_body. keeps_steps.
  match goal with |- context [truthy ?m] => destruct (truthy m) end; simpl.
  - keeps_steps. apply keeps_session_fetch_all.
  - keeps_steps.
Qed.

Lemma keeps_session_search query mailbox limit :
  keeps_session read_request (search_emails_body E query mailbox limit).
Proof.
  unfold search_emails_body. keeps_steps.
  match goal with |- context [truthy ?m] => destruct (truthy m) end; simpl.
  - keeps_steps. apply keeps_session_fetch_all.
  - keeps_steps.
Qed.

Lemma keeps_session_mark subject mailbox :
  keeps_session mark_request (mark_as_read_body E subject mailbox).
Proof.
  unfold mark_as_read_body. keeps_steps.
  match goal with |- context [truthy ?m] => destruct (truthy m) end; simpl.
  - keeps_steps. apply keeps_session_modify_all.
  - keeps_steps.
Qed.

Lemma keeps_session_lift {A} Q (r : Res A) : keeps_session Q (lift (X:=X) r).
Proof. apply keeps_session_silent. reflexivity. Qed.

Lemma keeps_session_call_tool name args :
  keeps_session (tool_request name) (call_tool E cfg name args).
Proof.
  unfold call_tool, tool_request.
  destruct (str_eqb name (lit "send_email")).
  { unfold send_email_tool.
    repeat (apply keeps_session_bind; [apply keeps_session_lift|intros ?]).
    apply keeps_session_try. apply keeps_session_send. }
  destruct (str_eqb name (lit "read_inbox")).
  { unfold read_inbox_tool.
    repeat (apply keeps_session_bind; [apply keeps_session_lift|intros ?]).
    apply keeps_session_try. apply keeps_session_read_inbox. }
  destruct (str_eqb name (lit "search_emails")).
  { unfold search_emails_tool.
    repeat (apply keeps_session_bind; [apply keeps_session_lift|intros ?]).
    apply keeps_session_try. apply keeps_session_search. }
  destruct (str_eqb name (lit "mark_as_read")).
  { unfold mark_as_read_tool.
    repeat (apply keeps_session_bind; [apply keeps_session_lift|intros ?]).
    apply keeps_session_try. apply keeps_session_mark. }
  apply keeps_session_silent. reflexivity.
Qed.

End KeepsSession.

(** Once a session is cached, no call of [call_tool] - whatever the tool
    name, the arguments and the outcome - replaces or clears it or
    writes the token file, and the program reaches none of lines 59-88:
    it calls neither [creds.refresh], the consent flow, [write_text] nor
    [build].  Every call it makes across the process boundary is
    [.execute()] on a request of the tool's own kind: [send_email] only
    sends; [read_inbox] and [search_emails] only list, with a result
    limit, and fetch, so they never modify a label; [mark_as_read] only
    lists, without a result limit, and removes the label UNREAD.  What
    the client library does inside [.execute()] is behind that call and
    is not constrained. *)
Theorem tool_calls_keep_the_session :
  forall (X : Type) (E : Externals X) (cfg : Config) (name : str)
         (args : pyval) (w : World X) (s : Service),
    gmail_service w = Some s ->
    let w' := snd (call_tool E cfg name args w) in
    gmail_service w' = Some s /\
    token_file w' = token_file w /\
    exists evs,
      log w' = log w ++ evs /\
      Forall (executes (tool_request name)) evs /\
      (name = lit "read_inbox" \/ name = lit "search_emails" ->
       modify_calls evs = [] /\ Forall (executes read_request) evs) /\
      (name = lit "send_email" -> Forall (executes send_request) evs) /\
      (name = lit "mark_as_read" -> Forall (executes mark_request) evs).
Proof.
  intros X E cfg name args w s Hs.
  destruct (call_tool E cfg name args w) as [r w'] eqn:Hrun. simpl.
  destruct (keeps_session_call_tool X E cfg name args w r w' s Hs Hrun)
    as (Hs' & Ht & evs & Hlog & Hall).
  split; [exact Hs'|]. split; [exact Ht|].
  exists evs. split; [exact Hlog|]. split; [exact Hall|].
  split; [|split].
  - intros Hname.
    assert (Hread : Forall (executes read_request) evs)
      by (destruct Hname; subst name; exact Hall).
    split; [|exact Hread].
    clear - Hread. induction Hread as [|ev evs Hev _ IH]; [reflexivity|].
    destruct ev as [| | | |[q m|id|id labels|raw]]; simpl in *;
      try contradiction; exact IH.
  - intros ->. exact Hall.
  - intros ->. exact Hall.
Qed.

Lemma tool_calls_keep_the_session_witness :
  gmail_service
    (snd (call_tool flaky config (lit "mark_as_read")
            (args_of [("subject"%string, VStr (lit "Invoice"))]) authorized))
  = Some the_service /\
  log (snd (call_tool flaky config (lit "mark_as_read")
              (args_of [("subject"%string, VStr (lit "Invoice"))]) authorized))
  = [EvBuild;
     EvExecute (ReqList (lit "in:inbox is:unread subject:Invoice") None);
     EvExecute (ReqModify (VStr (lit "a")) [lit "UNREAD"]);
     EvExecute (ReqModify (VStr (lit "b")) [lit "UNREAD"])].
Proof.
  split; [|reflexivity].
  exact (proj1 (tool_calls_keep_the_session nat flaky config
                  (lit "mark_as_read")
                  (args_of [("subject"%string, VStr (lit "Invoice"))])
                  authorized the_service eq_refl)).
Defined.

(** ** What a call returns *)

Section Returns.

Variable X : Type.
Variable E : Externals X.
Variable cfg : Config.

Lemma returns_bind {A B} (P : B -> Prop) (m : M X A) (k : A -> M X B) :
  (forall a, returns P (k a)) -> returns P (bind m k).
Proof.
  intros Hk w b w' Hrun. apply bind_returned in Hrun.
  destruct Hrun as (a & w1 & _ & Hrun). exact (Hk a _ _ _ Hrun).
Qed.

Lemma returns_ret {A} (P : A -> Prop) (a : A) : P a -> returns P (ret (X:=X) a).
Proof. intros HP w a' w' Hrun. inversion Hrun; subst. exact HP. Qed.

Lemma returns_raise {A} (P : A -> Prop) e : returns P (raise (X:=X) e).
Proof. intros w a' w' Hrun. discriminate Hrun. Qed.

Lemma returns_try {A} (P : A -> Prop) (m : M X A) (h : exn -> A) :
  returns P m -> (forall e, P (h e)) ->
  returns P (try_except m (fun e => ret (h e))).
Proof.
  intros Hm Hh w a w' Hrun. unfold try_except in Hrun.
  destruct (m w) as [[a0|[c msg|c msg]] w1] eqn:Hmw.
  - inversion Hrun; subst. exact (Hm _ _ _ Hmw).
  - inversion Hrun; subst. apply Hh.
  - discriminate Hrun.
Qed.

Ltac returns_steps :=
  repeat first
    [ apply returns_bind; intros ?
    | apply returns_ret; eexists; split; [reflexivity|reflexivity] ].

Lemma send_email_body_plain to subject body :
  returns plain_result (send_email_body E cfg to subject body).
Proof. unfold send_email_body. returns_steps. Qed.

Lemma read_inbox_body_plain mailbox limit unread :
  returns plain_result (read_inbox_body E mailbox limit unread).
Proof.
  unfold read_inbox_body. returns_steps.
  match goal with |- context [truthy ?m] => destruct (truthy m) end; simpl;
    returns_steps.
Qed.

Lemma search_emails_body_plain query mailbox limit :
  returns plain_result (search_emails_body E query mailbox limit).
Proof.
  unfold search_emails_body. returns_steps.
  match goal with |- context [truthy ?m] => destruct (truthy m) end; simpl;
    returns_steps.
Qed.

Lemma mark_as_read_body_plain subject mailbox :
  returns plain_result (mark_as_read_body E subject mailbox).
Proof.
  unfold mark_as_read_body. returns_steps.
  match goal with |- context [truthy ?m] => destruct (truthy m) end; simpl;
    returns_steps.
Qed.

Lemma is_prefix_app p a b : is_prefix p a = true -> is_prefix p (a ++ b) = true.
Proof.
  revert a. induction p as [|x p IH]; intros a H; [reflexivity|].
  destruct a as [|y a]; [discriminate|]. simpl in *.
  apply andb_prop in H. destruct H as [Hxy Hp].
  rewrite Hxy, (IH a Hp). reflexivity.
Qed.

(** A handler - a [try] block that returns plain results, and an
    [except] clause that returns [prefix + str(e)] - returns a marked
    text exactly when the [try] block raised. *)
Lemma handler_marks_failures (body : M X (list TextContent)) prefix w t w' :
  returns plain_result body ->
  is_error_text prefix = true ->
  try_except body (fun e => ret (one (prefix ++ exn_str e))) w
  = (Ok (one t), w') ->
  (is_error_text t = true <-> exists e, fst (body w) = Raise e).
Proof.
  intros Hbody Hprefix Hrun. unfold try_except in Hrun.
  destruct (body w) as [[out|[c msg|c msg]] w1] eqn:Hbw; simpl.
  - inversion Hrun; subst.
    destruct (Hbody _ _ _ Hbw) as (t0 & Ht0 & Hplain).
    inversion Ht0; subst. split.
    + intros Hm. rewrite Hplain in Hm. discriminate.
    + intros [e He]. discriminate.
  - inversion Hrun; subst. split; [eauto|]. intros _.
    apply is_prefix_app. exact Hprefix.
  - discriminate Hrun.
Qed.

End Returns.

(** Whenever [call_tool] returns, it returns a list of exactly one
    [TextContent] of type "text": indexing the result with [0], as the
    test script does, cannot fail. *)
Theorem every_result_is_one_text :
  forall (X : Type) (E : Externals X) (cfg : Config) (name : str)
         (args : pyval) (w w' : World X) (out : list TextContent),
    call_tool E cfg name args w = (Ok out, w') ->
    exists t, out = [ {| type_ := lit "text"; text := t |} ].
Proof.
  intros X E cfg name args w w' out Hrun.
  assert (Hplain : forall o, plain_result o ->
                             exists t, o = [ {| type_ := lit "text"; text := t |} ]).
  { intros o (t & Ho & _). exists t. exact Ho. }
  assert (Hany : forall (body : M X (list TextContent)) h,
             returns plain_result body ->
             returns (fun o => exists t, o = [ {| type_ := lit "text"; text := t |} ])
               (try_except body (fun e => ret (one (h e))))).
  { intros body h Hbody. apply returns_try.
    - intros w0 o w0' H0. apply Hplain. exact (Hbody _ _ _ H0).
    - intros e. eexists. reflexivity. }
  revert Hrun. generalize w out w'.
  change (returns (fun o => exists t, o = [ {| type_ := lit "text"; text := t |} ])
            (call_tool E cfg name args)).
  unfold call_tool.
  destruct (str_eqb name (lit "send_email")).
  { unfold send_email_tool. repeat (apply returns_bind; intros ?).
    apply Hany. apply send_email_body_plain. }
  destruct (str_eqb name (lit "read_inbox")).
  { unfold read_inbox_tool. repeat (apply returns_bind; intros ?).
    apply Hany. apply read_inbox_body_plain. }
  destruct (str_eqb name (lit "search_emails")).
  { unfold search_emails_tool. repeat (apply returns_bind; intros ?).
    apply Hany. apply search_emails_body_plain. }
  destruct (str_eqb name (lit "mark_as_read")).
  { unfold mark_as_read_tool. repeat (apply returns_bind; intros ?).
    apply Hany. apply mark_as_read_body_plain. }
  apply returns_raise.
Qed.

Lemma every_result_is_one_text_witness :
  exists t,
    fst (call_tool (reliable []) config (lit "read_inbox") (VDict []) authorized)
    = Ok [ {| type_ := lit "text"; text := t |} ].
Proof.
  destruct (every_result_is_one_text nat (reliable []) config
              (lit "read_inbox") (VDict []) authorized _
              (one (lit "No emails found")) eq_refl) as [t Ht].
  exists t. rewrite <- Ht. reflexivity.
Defined.

(** The leading "[ERROR]" tells failure from success: when the arguments
    pass the lookups in front of the [try] block and the call returns a
    text, that text starts with the marker exactly when the [try] block
    raised. *)
Theorem error_marker_tells_failure :
  forall (X : Type) (E : Externals X) (cfg : Config) (w w' : World X) (t : str),
    (forall d to subject body,
        dict_get (lit "to") d = Some to ->
        dict_get (lit "subject") d = Some subject ->
        dict_get (lit "body") d = Some body ->
        call_tool E cfg (lit "send_email") (VDict d) w = (Ok (one t), w') ->
        (is_error_text t = true <->
         exists e, fst (send_email_body E cfg to subject body w) = Raise e)) /\
    (forall args mailbox limit lim unread_only,
        get args (lit "mailbox") (VStr (lit "INBOX")) = Ok mailbox ->
        get args (lit "limit") (VInt 10) = Ok limit ->
        min_int limit (MAX_EMAILS cfg) = Ok lim ->
        get args (lit "unread_only") (VBool false) = Ok unread_only ->
        call_tool E cfg (lit "read_inbox") args w = (Ok (one t), w') ->
        (is_error_text t = true <->
         exists e, fst (read_inbox_body E mailbox lim unread_only w) = Raise e)) /\
    (forall d query mailbox limit lim,
        dict_get (lit "query") d = Some query ->
        get (VDict d) (lit "mailbox") (VStr (lit "INBOX")) = Ok mailbox ->
        get (VDict d) (lit "limit") (VInt 10) = Ok limit ->
        min_int limit (MAX_EMAILS cfg) = Ok lim ->
        call_tool E cfg (lit "search_emails") (VDict d) w = (Ok (one t), w') ->
        (is_error_text t = true <->
         exists e, fst (search_emails_body E query mailbox lim w) = Raise e)) /\
    (forall d subject mailbox,
        dict_get (lit "subject") d = Some subject ->
        get (VDict d) (lit "mailbox") (VStr (lit "INBOX")) = Ok mailbox ->
        call_tool E cfg (lit "mark_as_read") (VDict d) w = (Ok (one t), w') ->
        (is_error_text t = true <->
         exists e, fst (mark_as_read_body E subject mailbox w) = Raise e)).
Proof.
  intros X E cfg w w' t. split; [|split; [|split]].
  - intros d to subject body Hto Hsubject Hbody.
    rewrite dispatch_send_email. unfold send_email_tool. simpl getitem.
    rewrite Hto, Hsubject, Hbody. repeat step_lift.
    apply handler_marks_failures;
      [apply send_email_body_plain|reflexivity].
  - intros args mailbox limit lim unread_only Hmb Hlimit Hmin Hunread.
    rewrite dispatch_read_inbox. unfold read_inbox_tool.
    rewrite Hmb. step_lift. rewrite Hlimit. step_lift. rewrite Hmin. step_lift.
    rewrite Hunread. step_lift.
    apply handler_marks_failures;
      [apply read_inbox_body_plain|reflexivity].
  - intros d query mailbox limit lim Hquery Hmb Hlimit Hmin.
    rewrite dispatch_search_emails. unfold search_emails_tool. simpl getitem.
    rewrite Hquery. step_lift. rewrite Hmb. step_lift. rewrite Hlimit.
    step_lift. rewrite Hmin. step_lift.
    apply handler_marks_failures;
      [apply search_emails_body_plain|reflexivity].
  - intros d subject mailbox Hsubject Hmb.
    rewrite dispatch_mark_as_read. unfold mark_as_read_tool. simpl getitem.
    rewrite Hsubject. step_lift. rewrite Hmb. step_lift.
    apply handler_marks_failures;
      [apply mark_as_read_body_plain|reflexivity].
Qed.

Lemma error_marker_tells_failure_witness :
  is_error_text (lit "No unread emails found with subject 'Invoice'") = true <->
  exists e,
    fst (mark_as_read_body (reliable []) (VStr (lit "Invoice"))
           (VStr (lit "INBOX")) start) = Raise e.
Proof.
  exact (proj2 (proj2 (proj2
           (error_marker_tells_failure nat (reliable []) config start _
              (lit "No unread emails found with subject 'Invoice'"))))
           [(lit "subject", VStr (lit "Invoice"))] (VStr (lit "Invoice"))
           (VStr (lit "INBOX")) eq_refl eq_refl eq_refl).
Defined.

(** ** The advertised tools and the dispatcher *)


Lemma str_eqb_eq a b : str_eqb a b = true -> a = b.
Proof.
  revert b. induction a as [|x a IH]; destruct b as [|y b]; simpl;
    intros H; try reflexivity; try discriminate.
  apply andb_prop in H. destruct H as [Hxy Hab].
  apply N.eqb_eq in Hxy. subst. f_equal. apply IH. exact Hab.
Qed.

Lemma str_eqb_neq a b : a <> b -> str_eqb a b = false.
Proof.
  intros Hab. destruct (str_eqb a b) eqn:H; [|reflexivity].
  apply str_eqb_eq in H. contradiction.
Qed.

Section Guards.

Variable X : Type.
Variable E : Externals X.
Variable cfg : Config.











End Guards.









Lemma dict_get_app k d d' :
  dict_get k (d ++ d')
  = match dict_get k d with Some x => Some x | None => dict_get k d' end.
Proof.
  induction d as [|[k0 v0] d IH]; simpl; [reflexivity|].
  destruct (str_eqb k k0); [reflexivity|exact IH].
Qed.

(** The ["default"] a schema declares for an optional field is the
    default the handler applies: leaving the field out gives the same
    outcome, in the same world, as passing the declared default. *)
Theorem declared_defaults_are_applied :
  forall (X : Type) (E : Externals X) (cfg : Config) (t : Tool)
         (field : str) (v : pyval) (d : list (str * pyval)) (w : World X),
    In t (list_tools cfg) ->
    declared_default t field = Some v ->
    dict_get field d = None ->
    call_tool E cfg (tool_name t) (VDict (d ++ [(field, v)])) w
    = call_tool E cfg (tool_name t) (VDict d) w.
Proof.
  intros X E cfg t field v d w Hin Hdefault Hnone.
  destruct Hin as [<-|[<-|[<-|[<-|[]]]]]; cbn [tool_name];
    unfold declared_default in Hdefault; simpl in Hdefault.
  all: repeat match type of Hdefault with
         | context [str_eqb ?f ?k] =>
             is_var f;
             let Hk := fresh "Hk" in
             destruct (str_eqb f k) eqn:Hk;
             [apply str_eqb_eq in Hk|];
             simpl in Hdefault
         end;
       try discriminate Hdefault.
  all: inversion Hdefault; subst field v; clear Hdefault.
  all: first [rewrite !dispatch_read_inbox; unfold read_inbox_tool
             |rewrite !dispatch_search_emails; unfold search_emails_tool
             |rewrite !dispatch_mark_as_read; unfold mark_as_read_tool];
       cbn [get getitem]; rewrite !dict_get_app;
       try match goal with
           | H : dict_get ?k _ = None |- _ =>
               change k with (lit "mailbox") in H
               || change k with (lit "limit") in H
               || change k with (lit "unread_only") in H
           end;
       rewrite ?Hnone;
       repeat match goal with
              | |- context [dict_get (lit ?k) [(?k', ?v')]] =>
                  change (dict_get (lit k) [(k', v')]) with (@None pyval)
                  || change (dict_get (lit k) [(k', v')]) with (Some v')
              end;
       repeat match goal with
              | |- context [match dict_get ?k ?dd with _ => _ end] =>
                  is_var dd; destruct (dict_get k dd)
              end;
       reflexivity.
Qed.

Lemma declared_defaults_are_applied_witness :
  call_tool (reliable ["a"; "b"]%string) config (lit "read_inbox")
    (VDict ([] ++ [(lit "limit", VInt 10)])) start
  = call_tool (reliable ["a"; "b"]%string) config (lit "read_inbox")
      (VDict []) start.
Proof.
  exact (declared_defaults_are_applied nat (reliable ["a"; "b"]%string) config
           (nth 1 (list_tools config) (mkTool [] [] VNone))
           (lit "limit") (VInt 10) [] start
           (or_intror (or_introl eq_refl)) eq_refl eq_refl).
Defined.

(** ** Listing and fetching *)

Section Fetching.

Variable X : Type.
Variable E : Externals X.
Variable cfg : Config.

(** The loop over entries that carry an identifier each, when the Gmail
    API answers the fetches one after the other with [fulls] and the
    normalizer accepts each answer. *)
Lemma fetch_all_answered svc entries ids :
  Forall2 has_id entries ids ->
  forall fulls emails w x',
    answers E svc (map ReqGet ids) (outside w) = Some (fulls, x') ->
    Forall2 normalizes_to fulls emails ->
    exists w',
      fetch_all E svc entries w = (Ok emails, w') /\
      log w' = log w ++ get_events ids /\
      outside w' = x'.
Proof.
  induction 1 as [|msg id entries ids Hid _ IH]; intros fulls emails w x' Hans Hnorm.
  - simpl in Hans. inversion Hans; subst. inversion Hnorm; subst.
    exists w. simpl. rewrite app_nil_r. auto.
  - cbn [map answers] in Hans.
    destruct (execute E (outside w) svc (ReqGet id)) as [[full|e] x1] eqn:Hex;
      [|discriminate].
    destruct (answers E svc (map ReqGet ids) x1) as [[others x'']|] eqn:Hrest;
      [|discriminate].
    inversion Hans; subst.
    inversion Hnorm as [|full' email fulls' emails' Hfull Hothers]; subst.
    cbn [fetch_all]. unfold has_id in Hid. rewrite Hid. step_lift.
    unfold bind at 1, run at 1, call_outside. rewrite Hex.
    unfold normalizes_to in Hfull. rewrite Hfull. step_lift.
    destruct (IH others emails' (step_outside (EvExecute (ReqGet id)) x1 w) x'
                Hrest Hothers) as (w' & Hrun & Hlog & Hout).
    rewrite (bind_ok _ _ _ _ _ Hrun).
    exists w'. split; [reflexivity|]. split; [|exact Hout].
    rewrite Hlog. simpl. rewrite <- app_assoc. reflexivity.
Qed.

(** What follows a listing answered with [results] in [read_inbox] and
    [search_emails]: the fetches, then the rendering [render]. *)
Lemma fetch_and_render svc results entries ids fulls emails w x'
    (none : str) (render : list NormalizedMessage -> str) :
  get results (lit "messages") (VList []) = Ok (VList entries) ->
  Forall2 has_id entries ids ->
  answers E svc (map ReqGet ids) (outside w) = Some (fulls, x') ->
  Forall2 normalizes_to fulls emails ->
  exists w',
    bind (lift (get results (lit "messages") (VList [])))
      (fun messages =>
         if negb (truthy messages) then ret (one none)
         else
           bind (lift (iter messages))
             (fun items =>
                bind (fetch_all E svc items)
                  (fun emails => ret (one (render emails))))) w
    = (Ok (one match entries with [] => none | _ => render emails end), w') /\
    log w' = log w ++ get_events ids /\
    outside w' = x'.
Proof.
  intros Hmsgs Hids Hans Hnorm.
  rewrite Hmsgs. step_lift. rewrite truthy_list.
  destruct Hids as [|msg id entries ids Hid Hids]; cbn [negb iter].
  - simpl in Hans. inversion Hans; subst.
    exists w. split; [reflexivity|]. simpl. rewrite app_nil_r. auto.
  - step_lift.
    destruct (fetch_all_answered svc (msg :: entries) (id :: ids)
                (Forall2_cons _ _ Hid Hids) fulls emails w x' Hans Hnorm)
      as (w' & Hrun & Hlog & Hout).
    rewrite (bind_ok _ _ _ _ _ Hrun).
    exists w'. split; [reflexivity|]. split; [exact Hlog|exact Hout].
Qed.

End Fetching.

(** A run of [read_inbox] in which nothing fails.  The session is
    obtained; one listing request is sent, for the query
    "in:<mailbox, lowered>", followed by " is:unread" when [unread_only]
    is true, with [maxResults = min(limit, MAX_EMAILS)]; the entries of
    the answer carry an identifier each, next to whatever else they
    hold.  Each identifier is then fetched once, in listing order, each
    fetch in the state the one before left, and the k-th rendered email
    is the normalized answer to the k-th fetch.  An empty listing gives
    "No emails found" and no fetch. *)
Theorem read_inbox_lists_then_fetches :
  forall (X : Type) (E : Externals X) (cfg : Config) d (w w1 : World X) svc
         mailbox limit lim unread_only results x2 entries ids fulls x3 emails,
    get (VDict d) (lit "mailbox") (VStr (lit "INBOX")) = Ok (VStr mailbox) ->
    get (VDict d) (lit "limit") (VInt 10) = Ok limit ->
    min_int limit (MAX_EMAILS cfg) = Ok lim ->
    get (VDict d) (lit "unread_only") (VBool false) = Ok unread_only ->
    get_gmail_service E w = (Ok svc, w1) ->
    let q := lit "in:" ++ str_lower E mailbox
             ++ (if truthy unread_only then lit " is:unread" else []) in
    execute E (outside w1) svc (ReqList q (Some lim)) = (Ok results, x2) ->
    get results (lit "messages") (VList []) = Ok (VList entries) ->
    Forall2 has_id entries ids ->
    answers E svc (map ReqGet ids) x2 = Some (fulls, x3) ->
    Forall2 normalizes_to fulls emails ->
    fst (call_tool E cfg (lit "read_inbox") (VDict d) w)
    = Ok (one
            match entries with
            | [] => lit "No emails found"
            | _ => lit "Found " ++ str_of_Z (Z.of_nat (List.length emails))
                   ++ lit " email(s):" ++ nl ++ nl ++ format_inbox E 1 emails
            end) /\
    List.length emails = List.length entries /\
    log (snd (call_tool E cfg (lit "read_inbox") (VDict d) w))
    = log w1 ++ EvExecute (ReqList q (Some lim)) :: get_events ids /\
    outside (snd (call_tool E cfg (lit "read_inbox") (VDict d) w)) = x3.
Proof.
  intros X E cfg d w w1 svc mailbox limit lim unread_only results x2 entries
         ids fulls x3 emails Hmb Hlimit Hmin Hunread Hsvc q Hlist Hmsgs Hids
         Hans Hnorm.
  rewrite dispatch_read_inbox. unfold read_inbox_tool.
  rewrite Hmb. step_lift. rewrite Hlimit. step_lift. rewrite Hmin. step_lift.
  rewrite Hunread. step_lift.
  assert (Hbody :
            exists w',
              read_inbox_body E (VStr mailbox) lim unread_only w
              = (Ok (one
                       match entries with
                       | [] => lit "No emails found"
                       | _ => lit "Found "
                              ++ str_of_Z (Z.of_nat (List.length emails))
                              ++ lit " email(s):" ++ nl ++ nl
                              ++ format_inbox E 1 emails
                       end), w') /\
              log w' = log w1 ++ EvExecute (ReqList q (Some lim))
                                 :: get_events ids /\
              outside w' = x3).
  { unfold read_inbox_body. rewrite (bind_ok _ _ _ _ _ Hsvc).
    cbn [lower]. rewrite (bind_lift (str_lower E mailbox)). cbv zeta.
    assert (Hq : (if truthy unread_only
                  then (lit "in:" ++ str_lower E mailbox) ++ lit " is:unread"
                  else lit "in:" ++ str_lower E mailbox) = q).
    { unfold q. destruct (truthy unread_only).
      - rewrite <- app_assoc. reflexivity.
      - rewrite app_nil_r. reflexivity. }
    rewrite Hq.
    assert (Hrun : run E svc (ReqList q (Some lim)) w1
                   = (Ok results,
                      step_outside (EvExecute (ReqList q (Some lim))) x2 w1))
      by (unfold run, call_outside; rewrite Hlist; reflexivity).
    rewrite (bind_ok _ _ _ _ _ Hrun). clear Hrun.
    destruct (fetch_and_render X E svc results entries ids fulls emails
                (step_outside (EvExecute (ReqList q (Some lim))) x2 w1) x3
                (lit "No emails found")
                (fun emails =>
                   lit "Found " ++ str_of_Z (Z.of_nat (List.length emails))
                   ++ lit " email(s):" ++ nl ++ nl ++ format_inbox E 1 emails)
                Hmsgs Hids Hans Hnorm) as (w' & Hrun & Hlog & Hout).
    exists w'. split; [exact Hrun|]. split; [|exact Hout].
    rewrite Hlog. simpl. rewrite <- app_assoc. reflexivity. }
  destruct Hbody as (w' & Hrun & Hlog & Hout).
  rewrite (try_except_returned _ _ _ _ _ Hrun).
  split; [reflexivity|]. split; [|split; [exact Hlog|exact Hout]].
  rewrite <- (Forall2_length Hnorm), (Forall2_length Hids).
  clear - Hans. revert fulls x2 Hans.
  induction ids as [|id ids IH]; intros fulls x2 Hans; simpl in Hans.
  - inversion Hans; reflexivity.
  - destruct (execute E x2 svc (ReqGet id)) as [[full|e] x1]; [|discriminate].
    destruct (answers E svc (map ReqGet ids) x1) as [[others x']|] eqn:Hrest;
      [|discriminate].
    inversion Hans; subst. simpl. rewrite (IH _ _ Hrest). reflexivity.
Qed.

Lemma read_inbox_lists_then_fetches_witness :
  log (snd (call_tool (reliable ["a"; "b"]%string) config (lit "read_inbox")
              (args_of [("unread_only"%string, VBool true)]) start))
  = [EvBuild;
     EvExecute (ReqList (lit "in:inbox is:unread") (Some (VInt 10)));
     EvExecute (ReqGet (VStr (lit "a")));
     EvExecute (ReqGet (VStr (lit "b")))] /\
  fst (call_tool (reliable ["a"; "b"]%string) config (lit "read_inbox")
         (args_of [("unread_only"%string, VBool true)]) start)
  = Ok (one (lit "Found 2 email(s):" ++ nl ++ nl
             ++ format_inbox (reliable ["a"; "b"]%string) 1
                  [plain_email (VStr (lit "a")); plain_email (VStr (lit "b"))])).
Proof.
  assert (Hids : Forall2 has_id (map entry ["a"; "b"]%string)
                   [VStr (lit "a"); VStr (lit "b")])
    by (repeat constructor).
  assert (Hnorm : Forall2 normalizes_to
                    [plain_message (VStr (lit "a"));
                     plain_message (VStr (lit "b"))]
                    [plain_email (VStr (lit "a"));
                     plain_email (VStr (lit "b"))])
    by (repeat constructor).
  destruct (read_inbox_lists_then_fetches nat (reliable ["a"; "b"]%string)
              config [(lit "unread_only", VBool true)] start authorized
              the_service (lit "INBOX") (VInt 10) (VInt 10) (VBool true)
              (listing_of ["a"; "b"]%string) 1%nat
              (map entry ["a"; "b"]%string)
              [VStr (lit "a"); VStr (lit "b")]
              [plain_message (VStr (lit "a")); plain_message (VStr (lit "b"))]
              3%nat
              [plain_email (VStr (lit "a")); plain_email (VStr (lit "b"))]
              eq_refl eq_refl eq_refl eq_refl eq_refl eq_refl eq_refl
              Hids eq_refl Hnorm)
    as (Htext & _ & Hlog & _).
  unfold args_of. simpl map. split.
  - rewrite Hlog. reflexivity.
  - rewrite Htext. reflexivity.
Defined.

(** A run of [search_emails] in which nothing fails: one listing
    request for the query "in:<mailbox, lowered> subject:<query>" with
    [maxResults = min(limit, MAX_EMAILS)], whose answer has entries that
    carry an identifier each; then one fetch per identifier in listing
    order, each in the state the one before left; the k-th rendered
    email is the normalized answer to the k-th fetch.  An empty listing
    gives "No emails found matching '<query>'" and no fetch. *)
Theorem search_emails_lists_then_fetches :
  forall (X : Type) (E : Externals X) (cfg : Config) d (w w1 : World X) svc
         query mailbox limit lim results x2 entries ids fulls x3 emails,
    dict_get (lit "query") d = Some query ->
    get (VDict d) (lit "mailbox") (VStr (lit "INBOX")) = Ok (VStr mailbox) ->
    get (VDict d) (lit "limit") (VInt 10) = Ok limit ->
    min_int limit (MAX_EMAILS cfg) = Ok lim ->
    get_gmail_service E w = (Ok svc, w1) ->
    let q := lit "in:" ++ str_lower E mailbox ++ lit " subject:" ++ fmt E query in
    execute E (outside w1) svc (ReqList q (Some lim)) = (Ok results, x2) ->
    get results (lit "messages") (VList []) = Ok (VList entries) ->
    Forall2 has_id entries ids ->
    answers E svc (map ReqGet ids) x2 = Some (fulls, x3) ->
    Forall2 normalizes_to fulls emails ->
    fst (call_tool E cfg (lit "search_emails") (VDict d) w)
    = Ok (one
            match entries with
            | [] => lit "No emails found matching '" ++ fmt E query ++ lit "'"
            | _ => lit "Found " ++ str_of_Z (Z.of_nat (List.length emails))
                   ++ lit " email(s) matching '" ++ fmt E query ++ lit "':"
                   ++ nl ++ nl ++ format_search E 1 emails
            end) /\
    log (snd (call_tool E cfg (lit "search_emails") (VDict d) w))
    = log w1 ++ EvExecute (ReqList q (Some lim)) :: get_events ids /\
    outside (snd (call_tool E cfg (lit "search_emails") (VDict d) w)) = x3.
Proof.
  intros X E cfg d w w1 svc query mailbox limit lim results x2 entries ids
         fulls x3 emails Hquery Hmb Hlimit Hmin Hsvc q Hlist Hmsgs Hids Hans
         Hnorm.
  rewrite dispatch_search_emails. unfold search_emails_tool.
  cbn [getitem]. rewrite Hquery. step_lift.
  rewrite Hmb. step_lift. rewrite Hlimit. step_lift. rewrite Hmin. step_lift.
  assert (Hbody :
            exists w',
              search_emails_body E query (VStr mailbox) lim w
              = (Ok (one
                       match entries with
                       | [] => lit "No emails found matching '"
                               ++ fmt E query ++ lit "'"
                       | _ => lit "Found "
                              ++ str_of_Z (Z.of_nat (List.length emails))
                              ++ lit " email(s) matching '" ++ fmt E query
                              ++ lit "':" ++ nl ++ nl
                              ++ format_search E 1 emails
                       end), w') /\
              log w' = log w1 ++ EvExecute (ReqList q (Some lim))
                                 :: get_events ids /\
              outside w' = x3).
  { unfold search_emails_body. rewrite (bind_ok _ _ _ _ _ Hsvc).
    cbn [lower]. rewrite (bind_lift (str_lower E mailbox)). cbv zeta.
    fold q.
    assert (Hrun : run E svc (ReqList q (Some lim)) w1
                   = (Ok results,
                      step_outside (EvExecute (ReqList q (Some lim))) x2 w1))
      by (unfold run, call_outside; rewrite Hlist; reflexivity).
    rewrite (bind_ok _ _ _ _ _ Hrun). clear Hrun.
    destruct (fetch_and_render X E svc results entries ids fulls emails
                (step_outside (EvExecute (ReqList q (Some lim))) x2 w1) x3
                (lit "No emails found matching '" ++ fmt E query ++ lit "'")
                (fun emails =>
                   lit "Found " ++ str_of_Z (Z.of_nat (List.length emails))
                   ++ lit " email(s) matching '" ++ fmt E query ++ lit "':"
                   ++ nl ++ nl ++ format_search E 1 emails)
                Hmsgs Hids Hans Hnorm) as (w' & Hrun & Hlog & Hout).
    exists w'. split; [exact Hrun|]. split; [|exact Hout].
    rewrite Hlog. simpl. rewrite <- app_assoc. reflexivity. }
  destruct Hbody as (w' & Hrun & Hlog & Hout).
  rewrite (try_except_returned _ _ _ _ _ Hrun).
  split; [reflexivity|]. split; [exact Hlog|exact Hout].
Qed.

Lemma search_emails_lists_then_fetches_witness :
  fst (call_tool (reliable ["a"; "b"]%string) config (lit "search_emails")
         (args_of [("query"%string, VStr (lit "Invoice"));
                   ("mailbox"%string, VStr (lit "Sent"))]) start)
  = Ok (one (lit "Found 2 email(s) matching 'Invoice':" ++ nl ++ nl
             ++ lit "--- Email 1 ---" ++ nl
             ++ lit "From: ann@example.org" ++ nl
             ++ lit "Subject: Invoice" ++ nl
             ++ lit "Date: " ++ nl ++ nl
             ++ lit "--- Email 2 ---" ++ nl
             ++ lit "From: ann@example.org" ++ nl
             ++ lit "Subject: Invoice" ++ nl
             ++ lit "Date: " ++ nl ++ nl)) /\
  log (snd (call_tool (reliable ["a"; "b"]%string) config (lit "search_emails")
              (args_of [("query"%string, VStr (lit "Invoice"));
                        ("mailbox"%string, VStr (lit "Sent"))]) start))
  = [EvBuild;
     EvExecute (ReqList (lit "in:sent subject:Invoice") (Some (VInt 10)));
     EvExecute (ReqGet (VStr (lit "a")));
     EvExecute (ReqGet (VStr (lit "b")))].
Proof.
  assert (Hids : Forall2 has_id (map entry ["a"; "b"]%string)
                   [VStr (lit "a"); VStr (lit "b")])
    by (repeat constructor).
  assert (Hnorm : Forall2 normalizes_to
                    [plain_message (VStr (lit "a"));
                     plain_message (VStr (lit "b"))]
                    [plain_email (VStr (lit "a"));
                     plain_email (VStr (lit "b"))])
    by (repeat constructor).
  destruct (search_emails_lists_then_fetches nat (reliable ["a"; "b"]%string)
              config
              [(lit "query", VStr (lit "Invoice"));
               (lit "mailbox", VStr (lit "Sent"))] start authorized
              the_service (VStr (lit "Invoice")) (lit "Sent") (VInt 10)
              (VInt 10) (listing_of ["a"; "b"]%string) 1%nat
              (map entry ["a"; "b"]%string)
              [VStr (lit "a"); VStr (lit "b")]
              [plain_message (VStr (lit "a")); plain_message (VStr (lit "b"))]
              3%nat
              [plain_email (VStr (lit "a")); plain_email (VStr (lit "b"))]
              eq_refl eq_refl eq_refl eq_refl eq_refl eq_refl eq_refl
              Hids eq_refl Hnorm)
    as (Htext & Hlog & _).
  unfold args_of. simpl map. split.
  - rewrite Htext. reflexivity.
  - rewrite Hlog. reflexivity.
Defined.

(** ** A refused label removal *)

Section Refusal.

Variable X : Type.
Variable E : Externals X.

Lemma modify_all_app svc a b w :
  modify_all E svc (a ++ b) w
  = bind (modify_all E svc a) (fun _ => modify_all E svc b) w.
Proof.
  revert w. induction a as [|msg a IH]; intros w; simpl; [reflexivity|].
  unfold bind, lift. destruct (getitem msg (lit "id")) as [id|e];
    [|reflexivity].
  destruct (run E svc (ReqModify id [lit "UNREAD"]) w) as [[v|e] w1];
    [|reflexivity].
  rewrite IH. reflexivity.
Qed.

End Refusal.

(** [mark_as_read] is not all-or-nothing.  When the Gmail API accepts
    the label removals of the first listed messages and refuses the
    next one, the loop stops there: the messages before it have been
    requested (and stay marked as read), the refused one has been
    requested once, the entries after it are not even looked at, and
    the caller gets only the error text of the refusal. *)
Theorem mark_as_read_stops_at_first_refusal :
  forall (X : Type) (E : Externals X) (cfg : Config) d subject mailbox
         (w w1 : World X) svc results x2 pre msg post pre_ids id acks x3 e x4,
    dict_get (lit "subject") d = Some subject ->
    get (VDict d) (lit "mailbox") (VStr (lit "INBOX")) = Ok (VStr mailbox) ->
    get_gmail_service E w = (Ok svc, w1) ->
    execute E (outside w1) svc (ReqList (unread_query E subject mailbox) None)
      = (Ok results, x2) ->
    get results (lit "messages") (VList []) = Ok (VList (pre ++ msg :: post)) ->
    Forall2 has_id pre pre_ids ->
    has_id msg id ->
    answers E svc (map removal pre_ids) x2 = Some (acks, x3) ->
    execute E x3 svc (removal id) = (Raise e, x4) ->
    is_Exception e = true ->
    fst (call_tool E cfg (lit "mark_as_read") (VDict d) w)
    = Ok (one (lit "[ERROR] Failed to mark as read: " ++ exn_str e)) /\
    log (snd (call_tool E cfg (lit "mark_as_read") (VDict d) w))
    = log w1 ++ EvExecute (ReqList (unread_query E subject mailbox) None)
               :: modify_events (pre_ids ++ [id]) /\
    outside (snd (call_tool E cfg (lit "mark_as_read") (VDict d) w)) = x4.
Proof.
  intros X E cfg d subject mailbox w w1 svc results x2 pre msg post pre_ids id
         acks x3 e x4 Hsub Hmb Hsvc Hlist Hmsgs Hpre Hid Hans Hrefuse He.
  set (q := unread_query E subject mailbox) in *.
  set (w2 := step_outside (EvExecute (ReqList q None)) x2 w1) in *.
  destruct (modify_all_answered X E svc pre pre_ids Hpre w2 acks x3 Hans)
    as (w3 & Hrun3 & Hlog3 & Hout3).
  assert (Hloop : modify_all E svc (pre ++ msg :: post) w2
                  = (Raise e, step_outside (EvExecute (removal id)) x4 w3)).
  { rewrite modify_all_app, (bind_ok _ _ _ _ _ Hrun3).
    cbn [modify_all]. unfold has_id in Hid. rewrite Hid. step_lift.
    apply bind_raised. unfold run, call_outside. rewrite Hout3.
    unfold removal in Hrefuse. rewrite Hrefuse. reflexivity. }
  assert (Hbody : mark_as_read_body E subject (VStr mailbox) w
                  = (Raise e, step_outside (EvExecute (removal id)) x4 w3)).
  { unfold mark_as_read_body. rewrite (bind_ok _ _ _ _ _ Hsvc).
    cbn [lower]. rewrite (bind_lift (str_lower E mailbox)). cbv zeta.
    fold (unread_query E subject mailbox). fold q.
    assert (Hrun : run E svc (ReqList q None) w1 = (Ok results, w2))
      by (unfold run, call_outside; rewrite Hlist; reflexivity).
    rewrite (bind_ok _ _ _ _ _ Hrun). clear Hrun.
    rewrite Hmsgs. step_lift. rewrite truthy_list.
    destruct (pre ++ msg :: post) as [|i0 l0] eqn:Hentries.
    { destruct pre; discriminate. }
    cbn [negb iter]. step_lift. apply bind_raised. exact Hloop. }
  rewrite dispatch_mark_as_read. unfold mark_as_read_tool.
  cbn [getitem]. rewrite Hsub. step_lift. rewrite Hmb. step_lift.
  rewrite (try_except_caught _ _ _ _ _ Hbody He).
  split; [reflexivity|]. cbn [ret snd step_outside log outside].
  split; [|reflexivity].
  rewrite Hlog3. unfold w2. cbn [step_outside log].
  unfold modify_events. rewrite map_app. simpl.
  rewrite <- !app_assoc. reflexivity.
Qed.

Lemma mark_as_read_stops_at_first_refusal_witness :
  fst (call_tool flaky config (lit "mark_as_read")
         (args_of [("subject"%string, VStr (lit "Invoice"))]) start)
  = Ok (one (lit "[ERROR] Failed to mark as read: <HttpError 503>")) /\
  modify_calls
    (log (snd (call_tool flaky config (lit "mark_as_read")
                 (args_of [("subject"%string, VStr (lit "Invoice"))]) start)))
  = [VStr (lit "a"); VStr (lit "b")].
Proof.
  assert (Hpre : Forall2 has_id [entry "a"] [VStr (lit "a")])
    by (repeat constructor).
  destruct (mark_as_read_stops_at_first_refusal nat flaky config
              [(lit "subject", VStr (lit "Invoice"))] (VStr (lit "Invoice"))
              (lit "INBOX") start authorized
              the_service (listing_of ["a"; "b"; "c"]%string) 1%nat
              [entry "a"] (entry "b") [entry "c"]
              [VStr (lit "a")] (VStr (lit "b")) [VDict []] 2%nat
              (Exc "HttpError" (lit "<HttpError 503>")) 3%nat
              eq_refl eq_refl eq_refl eq_refl eq_refl Hpre eq_refl eq_refl
              eq_refl eq_refl)
    as (Htext & Hlog & _).
  unfold args_of. simpl map. split; [exact Htext|].
  rewrite Hlog. reflexivity.
Defined.

(** ** Headers and whitespace in the normalizer *)

Lemma find_app {A} (p : A -> bool) l1 l2 :
  find p (l1 ++ l2)
  = match find p l1 with Some x => Some x | None => find p l2 end.
Proof.
  induction l1 as [|a l1 IH]; simpl; [reflexivity|].
  destruct (p a); [reflexivity|exact IH].
Qed.

Lemma build_headers_seen k hs items :
  build_headers hs = Ok items ->
  existsb (fun nv => eq_str (fst nv) k) items
  = match find (fun h => match getitem h (lit "name") with
                         | Ok name => eq_str name k
                         | Raise _ => false
                         end) (rev hs) with
    | Some _ => true
    | None => false
    end.
Proof.
  revert items. induction hs as [|h hs IH]; intros items H; simpl in H.
  - inversion H; subst. reflexivity.
  - destruct (getitem h (lit "name")) as [name|] eqn:Hname; [|discriminate].
    cbn [rbind] in H.
    destruct (getitem h (lit "value")) as [value|] eqn:Hvalue; [|discriminate].
    cbn [rbind] in H. destruct (hashable name); [|discriminate].
    destruct (build_headers hs) as [items'|] eqn:Hrest; [|discriminate].
    cbn [rbind] in H. inversion H; subst. cbn [existsb fst rev].
    rewrite find_app, (IH items' eq_refl). cbn [find]. rewrite Hname.
    destruct (find _ (rev hs)); [apply orb_true_r|].
    rewrite orb_false_r. destruct (eq_str name k); reflexivity.
Qed.

Lemma headers_get_last k hs items :
  build_headers hs = Ok items -> headers_get k items = last_header k hs.
Proof.
  revert items. induction hs as [|h hs IH]; intros items H.
  - inversion H; subst. reflexivity.
  - pose proof H as Hall. simpl in H.
    destruct (getitem h (lit "name")) as [name|] eqn:Hname; [|discriminate].
    cbn [rbind] in H.
    destruct (getitem h (lit "value")) as [value|] eqn:Hvalue; [|discriminate].
    cbn [rbind] in H. destruct (hashable name); [|discriminate].
    destruct (build_headers hs) as [items'|] eqn:Hrest; [|discriminate].
    cbn [rbind] in H. inversion H; subst. cbn [headers_get].
    rewrite (build_headers_seen k hs items' Hrest), (IH items' eq_refl).
    unfold last_header. cbn [rev]. rewrite find_app. cbn [find].
    rewrite Hname.
    destruct (find _ (rev hs)) as [h0|].
    + rewrite andb_false_r. reflexivity.
    + rewrite andb_true_r. destruct (eq_str name k); [|reflexivity].
      rewrite Hvalue. reflexivity.
Qed.

(** The four header fields of a normalized message are read by exact
    name: each is the value of the last entry of the headers list whose
    name is exactly [From], [To], [Subject] or [Date] (a later duplicate
    replaces an earlier one; a name in another letter case does not
    count), and the empty string when there is no such entry. *)
Theorem header_fields_are_last_exact_match :
  forall (msg : pyval) (pl : list (str * pyval)) (hs : list pyval)
         (n : NormalizedMessage),
    getitem msg (lit "payload") = Ok (VDict pl) ->
    dict_get (lit "headers") pl = Some (VList hs) ->
    parse_gmail_message msg = Ok n ->
    msg_from n = last_header (lit "From") hs /\
    msg_to n = last_header (lit "To") hs /\
    msg_subject n = last_header (lit "Subject") hs /\
    msg_date n = last_header (lit "Date") hs /\
    getitem msg (lit "id") = Ok (msg_id n).
Proof.
  intros msg pl hs n Hpl Hhs H. unfold parse_gmail_message in H.
  rewrite Hpl in H. cbn [rbind getitem] in H. rewrite Hhs in H.
  cbn [rbind iter] in H.
  apply rbind_ok in H. destruct H as (headers & Hbuild & H).
  apply rbind_ok in H. destruct H as (body & _ & H).
  apply rbind_ok in H. destruct H as (id & Hid & H).
  inversion H; subst. cbn.
  rewrite !(headers_get_last _ hs headers Hbuild). auto.
Qed.

Lemma header_fields_are_last_exact_match_witness :
  last_header (lit "Subject")
    [header "subject" "lower case"; header "Subject" "first";
     header "Subject" "second"] = VStr (lit "second") /\
  last_header (lit "From")
    [header "subject" "lower case"; header "Subject" "first";
     header "Subject" "second"] = VStr [].
Proof.
  destruct (header_fields_are_last_exact_match
              (VDict [(lit "id", VStr (lit "m7"));
                      (lit "payload",
                       VDict [(lit "headers",
                               VList [header "subject" "lower case";
                                      header "Subject" "first";
                                      header "Subject" "second"])])])
              [(lit "headers",
                VList [header "subject" "lower case";
                       header "Subject" "first";
                       header "Subject" "second"])]
              [header "subject" "lower case"; header "Subject" "first";
               header "Subject" "second"]
              {| msg_id := VStr (lit "m7"); msg_from := VStr [];
                 msg_to := VStr []; msg_subject := VStr (lit "second");
                 msg_date := VStr []; msg_body := [] |}
              eq_refl eq_refl eq_refl) as (Hfrom & _ & Hsubject & _).
  split; [symmetry; exact Hsubject|symmetry; exact Hfrom].
Defined.

Lemma lstrip_split s :
  exists pre, s = pre ++ lstrip s /\ forallb isspace pre = true.
Proof.
  induction s as [|c s (pre & Hs & Hpre)]; simpl.
  - exists []. auto.
  - destruct (isspace c) eqn:Hc.
    + exists (c :: pre). simpl. rewrite Hc, Hpre, <- Hs. auto.
    + exists []. auto.
Qed.

Lemma lstrip_head s :
  match lstrip s with c :: _ => isspace c = false | [] => True end.
Proof.
  induction s as [|c s IH]; simpl; [exact I|].
  destruct (isspace c) eqn:Hc; [exact IH|exact Hc].
Qed.

Lemma forallb_rev {A} (p : A -> bool) l :
  forallb p l = true -> forallb p (rev l) = true.
Proof.
  rewrite !forallb_forall. intros H x Hx. apply H. apply in_rev. exact Hx.
Qed.

(** [strip] removes a run of whitespace at each end and nothing else. *)
Lemma strip_split s :
  exists pre post,
    s = pre ++ strip s ++ post /\
    forallb isspace pre = true /\ forallb isspace post = true.
Proof.
  destruct (lstrip_split s) as (pre & Hs & Hpre).
  destruct (lstrip_split (rev (lstrip s))) as (q & Hq & Hqs).
  exists pre, (rev q). split; [|split; [exact Hpre|apply forallb_rev; exact Hqs]].
  unfold strip, rstrip. rewrite <- rev_app_distr, <- Hq, rev_involutive.
  exact Hs.
Qed.

Lemma strip_ends s :
  match strip s with c :: _ => isspace c = false | [] => True end /\
  match rev (strip s) with c :: _ => isspace c = false | [] => True end.
Proof.
  split.
  - destruct (lstrip_split (rev (lstrip s))) as (q & Hq & _).
    pose proof (lstrip_head s) as Hhead.
    assert (Ht : lstrip s = strip s ++ rev q).
    { unfold strip, rstrip.
      rewrite <- rev_app_distr, <- Hq, rev_involutive. reflexivity. }
    destruct (strip s) as [|c r]; [exact I|].
    rewrite Ht in Hhead. exact Hhead.
  - unfold strip, rstrip. rewrite rev_involutive. apply lstrip_head.
Qed.

(** The body of a normalized message is the extracted text without the
    whitespace around it: the text is the body between two runs of
    whitespace characters, whitespace inside the body is kept, and the
    body neither starts nor ends with a whitespace character. *)
Theorem body_is_text_without_surrounding_whitespace :
  forall (msg : pyval) (n : NormalizedMessage),
    parse_gmail_message msg = Ok n ->
    exists t pre post,
      extract_body msg = Ok t /\
      t = pre ++ msg_body n ++ post /\
      forallb isspace pre = true /\
      forallb isspace post = true /\
      match msg_body n with c :: _ => isspace c = false | [] => True end /\
      match rev (msg_body n) with c :: _ => isspace c = false | [] => True end.
Proof.
  intros msg n H. destruct (parse_body msg n H) as (t & Ht & Hbody).
  destruct (strip_split t) as (pre & post & Hsplit & Hpre & Hpost).
  exists t, pre, post. rewrite Hbody.
  split; [exact Ht|]. split; [exact Hsplit|].
  split; [exact Hpre|]. split; [exact Hpost|]. apply strip_ends.
Qed.

Lemma body_is_text_without_surrounding_whitespace_witness :
  exists t pre post,
    extract_body multipart_message = Ok t /\
    t = pre ++ lit "hello" ++ post /\
    forallb isspace pre = true /\ forallb isspace post = true.
Proof.
  destruct (body_is_text_without_surrounding_whitespace multipart_message
              {| msg_id := VStr (lit "m3"); msg_from := VStr [];
                 msg_to := VStr (lit "bob@example.org");
                 msg_subject := VStr []; msg_date := VStr [];
                 msg_body := lit "hello" |} eq_refl)
    as (t & pre & post & Ht & Hsplit & Hpre & Hpost & _).
  exists t, pre, post. auto.
Defined.

(** ** The raw-message encoding against the normalizer's decoder *)

Lemma in_range n b : (b < N.of_nat n)%N -> In b (range n).
Proof.
  intros Hb. unfold range. apply in_map_iff. exists (N.to_nat b). split.
  - apply N2Nat.id.
  - apply in_seq. lia.
Qed.

Lemma checked_below n (f : N -> bool) :
  forallb f (range n) = true -> forall b, (b < N.of_nat n)%N -> f b = true.
Proof.
  intros H b Hb. rewrite forallb_forall in H. apply H. apply in_range. exact Hb.
Qed.

Lemma checked_pairs_below n (f : N -> N -> bool) :
  forallb (fun a => forallb (f a) (range n)) (range n) = true ->
  forall a b, (a < N.of_nat n)%N -> (b < N.of_nat n)%N -> f a b = true.
Proof.
  intros H a b Ha Hb.
  exact (checked_below n (f a) (checked_below n _ H a Ha) b Hb).
Qed.

Lemma alphabet_checked : forallb alphabet_check (range 64) = true.
Proof. vm_compute. reflexivity. Qed.

Lemma tail_checked : forallb tail_check (range 256) = true.
Proof. vm_compute. reflexivity. Qed.

Lemma group_checked :
  forallb (fun a => forallb (group_check a) (range 256)) (range 256) = true.
Proof. vm_compute. reflexivity. Qed.

Ltac split_checks H :=
  repeat match type of H with
         | (_ && _)%bool = true =>
             let Hr := fresh "Hr" in
             apply andb_prop in H; destruct H as [H Hr]
         end.

(** Every alphabet character is ASCII, is not the padding character and
    decodes to the six-bit value it stands for. *)
Lemma alphabet_decodes v :
  (v < 64)%N ->
  (urlsafe_translate (b64_char v) =? 61)%N = false /\
  b64_value (urlsafe_translate (b64_char v)) = Some v /\
  (b64_char v <? 128)%N = true.
Proof.
  intros Hv.
  pose proof (checked_below 64 alphabet_check alphabet_checked v Hv) as Hc.
  unfold alphabet_check in Hc. split_checks Hc.
  split; [apply negb_true_iff; exact Hc|]. split; [|assumption].
  destruct (b64_value (urlsafe_translate (b64_char v))) as [u|];
    [|discriminate].
  match goal with H : (u =? v)%N = true |- _ => apply N.eqb_eq in H; subst end.
  reflexivity.
Qed.

(** One step of the decoder on an alphabet character. *)
Lemma a2b_loop_char v rest quad_pos leftchar pads out :
  (v < 64)%N ->
  a2b_loop (urlsafe_translate (b64_char v) :: rest) quad_pos leftchar pads out
  = match quad_pos with
    | O => a2b_loop rest 1 v 0 out
    | 1%nat =>
        a2b_loop rest 2 (N.land v 15) 0
          (N.lor (N.shiftl leftchar 2) (N.shiftr v 4) :: out)
    | 2%nat =>
        a2b_loop rest 3 (N.land v 3) 0
          (N.lor (N.shiftl leftchar 4) (N.shiftr v 2) :: out)
    | _ => a2b_loop rest 0 0%N 0 (N.lor (N.shiftl leftchar 6) v :: out)
    end.
Proof.
  intros Hv. destruct (alphabet_decodes v Hv) as (Hne & Hval & _).
  cbn [a2b_loop]. rewrite Hne, Hval. reflexivity.
Qed.

(** The bit arithmetic of two neighbouring octets. *)
Lemma group_bits b0 b1 :
  (b0 < 256)%N -> (b1 < 256)%N ->
  (sextet0 b0 < 64)%N /\ (sextet1 b0 b1 < 64)%N /\
  (sextet2 b0 b1 < 64)%N /\ (sextet3 b1 < 64)%N /\
  N.lor (N.shiftl (sextet0 b0) 2) (N.shiftr (sextet1 b0 b1) 4) = b0 /\
  N.land (sextet1 b0 b1) 15 = N.shiftr b1 4 /\
  N.lor (N.shiftl (N.shiftr b0 4) 4) (N.shiftr (sextet2 b0 b1) 2) = b0 /\
  N.lor (N.shiftl (N.land (sextet2 b0 b1) 3) 6) (sextet3 b1) = b1.
Proof.
  intros H0 H1.
  pose proof (checked_pairs_below 256 group_check group_checked b0 b1 H0 H1)
    as Hc.
  unfold group_check in Hc. split_checks Hc.
  repeat match goal with
         | H : (_ <? _)%N = true |- _ => apply N.ltb_lt in H
         | H : (_ =? _)%N = true |- _ => apply N.eqb_eq in H
         end.
  repeat split; assumption.
Qed.

(** The last group of one or two octets. *)
Lemma tail_bits b :
  (b < 256)%N ->
  (N.shiftl (N.land b 3) 4 < 64)%N /\ (N.shiftl (N.land b 15) 2 < 64)%N /\
  N.lor (N.shiftl (sextet0 b) 2) (N.shiftr (N.shiftl (N.land b 3) 4) 4) = b /\
  N.lor (N.shiftl (N.shiftr b 4) 4) (N.shiftr (N.shiftl (N.land b 15) 2) 2) = b.
Proof.
  intros Hb.
  pose proof (checked_below 256 tail_check tail_checked b Hb) as Hc.
  unfold tail_check in Hc. split_checks Hc.
  repeat match goal with
         | H : (_ <? _)%N = true |- _ => apply N.ltb_lt in H
         | H : (_ =? _)%N = true |- _ => apply N.eqb_eq in H
         end.
  repeat split; assumption.
Qed.

Lemma decode_encode_loop n :
  forall bs out,
    (List.length bs <= n)%nat ->
    is_octets bs = true ->
    a2b_loop (map urlsafe_translate (urlsafe_b64encode bs)) 0 0%N 0 out
    = Ok (rev out ++ bs) /\
    forallb (fun c => (c <? 128)%N) (urlsafe_b64encode bs) = true.
Proof.
  induction n as [|n IH]; intros bs out Hlen Hoct.
  { destruct bs; [|simpl in Hlen; lia]. simpl. rewrite app_nil_r. auto. }
  destruct bs as [|b0 [|b1 [|b2 rest]]].
  - simpl. rewrite app_nil_r. auto.
  - (* one octet, two padding characters *)
    cbn [is_octets forallb] in Hoct. apply andb_prop in Hoct.
    destruct Hoct as [H0 _]. apply N.ltb_lt in H0.
    destruct (group_bits b0 b0 H0 H0) as (Hv0 & _).
    destruct (tail_bits b0 H0) as (Hv1 & _ & Hbyte & _).
    unfold sextet0 in *.
    cbn [urlsafe_b64encode map forallb]. split.
    + rewrite (a2b_loop_char _ _ _ _ _ _ Hv0), (a2b_loop_char _ _ _ _ _ _ Hv1).
      rewrite Hbyte. reflexivity.
    + destruct (alphabet_decodes _ Hv0) as (_ & _ & Ha0).
      destruct (alphabet_decodes _ Hv1) as (_ & _ & Ha1).
      rewrite Ha0, Ha1. reflexivity.
  - (* two octets, one padding character *)
    cbn [is_octets forallb] in Hoct. apply andb_prop in Hoct.
    destruct Hoct as [H0 Hoct]. apply andb_prop in Hoct.
    destruct Hoct as [H1 _]. apply N.ltb_lt in H0. apply N.ltb_lt in H1.
    destruct (group_bits b0 b1 H0 H1) as (Hv0 & Hv1 & _ & _ & Hb0 & Hleft & _).
    destruct (tail_bits b1 H1) as (_ & Hv2 & _ & Hb1).
    unfold sextet0, sextet1 in *.
    cbn [urlsafe_b64encode map forallb]. split.
    + rewrite (a2b_loop_char _ _ _ _ _ _ Hv0), (a2b_loop_char _ _ _ _ _ _ Hv1),
        (a2b_loop_char _ _ _ _ _ _ Hv2).
      rewrite Hb0, Hleft, Hb1.
      transitivity (Ok (rev (b1 :: b0 :: out))); [reflexivity|].
      cbn [rev]. rewrite <- app_assoc. reflexivity.
    + destruct (alphabet_decodes _ Hv0) as (_ & _ & Ha0).
      destruct (alphabet_decodes _ Hv1) as (_ & _ & Ha1).
      destruct (alphabet_decodes _ Hv2) as (_ & _ & Ha2).
      rewrite Ha0, Ha1, Ha2. reflexivity.
  - (* a full group of three octets *)
    cbn [is_octets forallb] in Hoct. apply andb_prop in Hoct.
    destruct Hoct as [H0 Hoct]. apply andb_prop in Hoct.
    destruct Hoct as [H1 Hoct]. apply andb_prop in Hoct.
    destruct Hoct as [H2 Hrest].
    apply N.ltb_lt in H0. apply N.ltb_lt in H1. apply N.ltb_lt in H2.
    destruct (group_bits b0 b1 H0 H1) as (Hv0 & Hv1 & _ & _ & Hb0 & Hleft & _).
    destruct (group_bits b1 b2 H1 H2)
      as (_ & _ & Hv2 & Hv3 & _ & _ & Hb1 & Hb2).
    unfold sextet0, sextet1, sextet2, sextet3 in *.
    assert (Hlen' : (List.length rest <= n)%nat) by (simpl in Hlen; lia).
    destruct (IH rest (b2 :: b1 :: b0 :: out) Hlen' Hrest) as (Hloop & Hascii).
    cbn [urlsafe_b64encode map forallb]. split.
    + rewrite (a2b_loop_char _ _ _ _ _ _ Hv0), (a2b_loop_char _ _ _ _ _ _ Hv1),
        (a2b_loop_char _ _ _ _ _ _ Hv2), (a2b_loop_char _ _ _ _ _ _ Hv3).
      rewrite Hb0, Hleft, Hb1, Hb2, Hloop. cbn [rev].
      rewrite <- !app_assoc. reflexivity.
    + destruct (alphabet_decodes _ Hv0) as (_ & _ & Ha0).
      destruct (alphabet_decodes _ Hv1) as (_ & _ & Ha1).
      destruct (alphabet_decodes _ Hv2) as (_ & _ & Ha2).
      destruct (alphabet_decodes _ Hv3) as (_ & _ & Ha3).
      rewrite Ha0, Ha1, Ha2, Ha3. exact Hascii.
Qed.

(** The decoder on an encoded text that is known to be ASCII. *)
Lemma decode_of_ascii text bs :
  forallb (fun c => (c <? 128)%N) text = true ->
  a2b_loop (map urlsafe_translate text) 0 0%N 0 [] = Ok bs ->
  urlsafe_b64decode (VStr text) = Ok bs.
Proof. intros Hascii Hloop. unfold urlsafe_b64decode. rewrite Hascii. exact Hloop. Qed.

(** What [send_email_tool] encodes with [urlsafe_b64encode], the
    decoder of [parse_gmail_message] reads back unchanged: for every
    sequence of octets, decoding the encoded text returns the octets,
    and the encoded text is ASCII. *)
Theorem encoded_octets_decode_back :
  forall bs : bytes,
    is_octets bs = true ->
    urlsafe_b64decode (VStr (urlsafe_b64encode bs)) = Ok bs /\
    forallb (fun c => (c <? 128)%N) (urlsafe_b64encode bs) = true.
Proof.
  intros bs Hoct.
  destruct (decode_encode_loop (List.length bs) bs [] (le_n _) Hoct)
    as (Hloop & Hascii).
  split; [|exact Hascii].
  apply decode_of_ascii; [exact Hascii|exact Hloop].
Qed.

Lemma encoded_octets_decode_back_witness :
  urlsafe_b64decode (VStr (lit "aGVsbG8=")) = Ok (lit "hello") /\
  urlsafe_b64encode [255; 254; 253; 252]%N = lit "__79_A==".
Proof.
  split; [|reflexivity].
  exact (proj1 (encoded_octets_decode_back (lit "hello") eq_refl)).
Defined.

Lemma utf8_decode_fuel_ascii t :
  forallb (fun c => (c <? 128)%N) t = true ->
  forall fuel, (List.length t < fuel)%nat -> utf8_decode_fuel fuel t = Ok t.
Proof.
  induction t as [|c t IH]; intros Hascii fuel Hfuel.
  - destruct fuel; reflexivity.
  - destruct fuel as [|fuel]; [simpl in Hfuel; lia|].
    cbn [forallb] in Hascii. apply andb_prop in Hascii.
    destruct Hascii as [Hc Ht]. cbn [utf8_decode_fuel]. rewrite Hc.
    rewrite (IH Ht fuel) by (simpl in Hfuel; lia). reflexivity.
Qed.

Lemma ascii_is_octets t :
  forallb (fun c => (c <? 128)%N) t = true -> is_octets t = true.
Proof.
  unfold is_octets. rewrite !forallb_forall. intros H c Hc.
  specialize (H c Hc). apply N.ltb_lt in H. apply N.ltb_lt. lia.
Qed.

(** A single-part message whose body data is the URL-safe base64 of an
    ASCII text normalizes to that text, stripped: the decoder, the UTF-8
    codec and [strip] compose without loss. *)
Theorem encoded_ascii_body_is_recovered :
  forall (msg : pyval) (pl b : list (str * pyval)) (t : str) (id : pyval)
         (hs : list pyval),
    getitem msg (lit "payload") = Ok (VDict pl) ->
    getitem msg (lit "id") = Ok id ->
    dict_get (lit "headers") pl = Some (VList hs) ->
    forallb header_ok hs = true ->
    dict_get (lit "parts") pl = None ->
    dict_get (lit "body") pl = Some (VDict b) ->
    dict_get (lit "data") b = Some (VStr (urlsafe_b64encode t)) ->
    forallb (fun c => (c <? 128)%N) t = true ->
    exists n,
      parse_gmail_message msg = Ok n /\
      msg_id n = id /\
      msg_body n = strip t.
Proof.
  intros msg pl b t id hs Hpl Hid Hhs Hok Hparts Hbody Hdata Hascii.
  assert (Htext : b64_text (VStr (urlsafe_b64encode t)) = Ok t).
  { unfold b64_text.
    destruct (decode_encode_loop (List.length t) t [] (le_n _)
                (ascii_is_octets t Hascii)) as (Hloop & Hchars).
    cbn [rev app] in Hloop.
    rewrite (decode_of_ascii _ _ Hchars Hloop).
    cbn [rbind]. unfold utf8_decode.
    apply utf8_decode_fuel_ascii; [exact Hascii|lia]. }
  assert (Hext : extract_body msg = Ok t).
  { rewrite (extract_body_payload msg pl Hpl), Hparts, Hbody.
    cbn [contains getitem]. rewrite Hdata. cbn [rbind]. exact Htext. }
  unfold parse_gmail_message. rewrite Hpl. cbn [rbind getitem].
  rewrite Hhs. cbn [rbind iter].
  pose proof (build_headers_ok hs Hok) as Hb.
  destruct (build_headers hs) as [headers|]; [|discriminate].
  cbn [rbind]. rewrite Hext. cbn [rbind]. rewrite Hid. cbn [rbind].
  eexists. split; [reflexivity|]. split; reflexivity.
Qed.

Lemma encoded_ascii_body_is_recovered_witness :
  exists n,
    parse_gmail_message (plain_message (VStr (lit "m1"))) = Ok n /\
    msg_id n = VStr (lit "m1") /\
    msg_body n = strip (lit "hello").
Proof.
  exact (encoded_ascii_body_is_recovered (plain_message (VStr (lit "m1")))
           [(lit "headers",
             VList [header "From" "ann@example.org";
                    header "Subject" "Invoice"]);
            (lit "body", VDict [(lit "data", VStr (lit "aGVsbG8="))])]
           [(lit "data", VStr (lit "aGVsbG8="))]
           (lit "hello") (VStr (lit "m1"))
           [header "From" "ann@example.org"; header "Subject" "Invoice"]
           eq_refl eq_refl eq_refl eq_refl eq_refl eq_refl eq_refl eq_refl).
Defined.

(** ** Sending *)

(** [send_email] sends one message and only after it has been built.
    When the session is obtained, the MIME encoder is given the
    configured [EMAIL_ADDRESS] as sender together with the three
    arguments; if it returns [raw] and the Gmail API accepts it, exactly
    one send request carrying [raw] leaves the process and the text
    names the recipient and the subject; if the encoder raises, no
    request leaves the process and the text is the marked error. *)
Theorem send_email_sends_once :
  forall (X : Type) (E : Externals X) (cfg : Config) d to subject body
         (w w1 : World X) svc,
    dict_get (lit "to") d = Some to ->
    dict_get (lit "subject") d = Some subject ->
    dict_get (lit "body") d = Some body ->
    get_gmail_service E w = (Ok svc, w1) ->
    (forall raw x2 v x3,
        mime_raw E (outside w1) (EMAIL_ADDRESS cfg) to subject body
          = (Ok raw, x2) ->
        execute E x2 svc (ReqSend raw) = (Ok v, x3) ->
        fst (call_tool E cfg (lit "send_email") (VDict d) w)
        = Ok (one (lit "Email sent successfully to " ++ fmt E to ++ nl
                   ++ lit "Subject: " ++ fmt E subject)) /\
        log (snd (call_tool E cfg (lit "send_email") (VDict d) w))
        = log w1 ++ [EvExecute (ReqSend raw)]) /\
    (forall e x2,
        mime_raw E (outside w1) (EMAIL_ADDRESS cfg) to subject body
          = (Raise e, x2) ->
        is_Exception e = true ->
        fst (call_tool E cfg (lit "send_email") (VDict d) w)
        = Ok (one (lit "[ERROR] Failed to send email: " ++ exn_str e)) /\
        log (snd (call_tool E cfg (lit "send_email") (VDict d) w)) = log w1).
Proof.
  intros X E cfg d to subject body w w1 svc Hto Hsubject Hbody Hsvc.
  assert (Htool : call_tool E cfg (lit "send_email") (VDict d) w
                  = try_except (send_email_body E cfg to subject body)
                      (fun e => ret (one (lit "[ERROR] Failed to send email: "
                                          ++ exn_str e))) w).
  { rewrite dispatch_send_email. unfold send_email_tool. cbn [getitem].
    rewrite Hto, Hsubject, Hbody. repeat step_lift. reflexivity. }
  rewrite Htool. split.
  - intros raw x2 v x3 Hmime Hsend.
    assert (Hrun : send_email_body E cfg to subject body w
                   = (Ok (one (lit "Email sent successfully to " ++ fmt E to
                               ++ nl ++ lit "Subject: " ++ fmt E subject)),
                      step_outside (EvExecute (ReqSend raw)) x3
                        {| gmail_service := gmail_service w1;
                           token_file := token_file w1;
                           token_writable := token_writable w1;
                           credentials_file := credentials_file w1;
                           outside := x2; log := log w1 |})).
    { unfold send_email_body. rewrite (bind_ok _ _ _ _ _ Hsvc).
      unfold bind at 1, call_library. rewrite Hmime.
      unfold bind, run, call_outside. cbn [outside]. rewrite Hsend.
      reflexivity. }
    rewrite (try_except_returned _ _ _ _ _ Hrun). split; reflexivity.
  - intros e x2 Hmime He.
    assert (Hrun : send_email_body E cfg to subject body w
                   = (Raise e,
                      {| gmail_service := gmail_service w1;
                         token_file := token_file w1;
                         token_writable := token_writable w1;
                         credentials_file := credentials_file w1;
                         outside := x2; log := log w1 |})).
    { unfold send_email_body. rewrite (bind_ok _ _ _ _ _ Hsvc).
      apply bind_raised. unfold call_library. rewrite Hmime. reflexivity. }
    rewrite (try_except_caught _ _ _ _ _ Hrun He). split; reflexivity.
Qed.

Lemma send_email_sends_once_witness :
  log (snd (call_tool (reliable []) config (lit "send_email")
              (args_of [("to"%string, VStr (lit "ann@example.org"));
                        ("subject"%string, VStr (lit "Hi"));
                        ("body"%string, VStr (lit "text"))]) start))
  = [EvBuild; EvExecute (ReqSend (lit "cmF3"))].
Proof.
  destruct (send_email_sends_once nat (reliable []) config
              [(lit "to", VStr (lit "ann@example.org"));
               (lit "subject", VStr (lit "Hi"));
               (lit "body", VStr (lit "text"))]
              (VStr (lit "ann@example.org")) (VStr (lit "Hi"))
              (VStr (lit "text")) start authorized the_service
              eq_refl eq_refl eq_refl eq_refl) as (Hsent & _).
  destruct (Hsent (lit "cmF3") O (VDict [(lit "id", VStr (lit "s1"))]) 1%nat
              eq_refl eq_refl) as (_ & Hlog).
  unfold args_of. simpl map. rewrite Hlog. reflexivity.
Defined.

(** ** Rendering *)

(** Both listings render the emails one after the other and number them
    consecutively: rendering a list in two parts, the second numbered
    from where the first stopped, gives the rendering of the whole. *)
Theorem renderings_are_sequential :
  forall (X : Type) (E : Externals X) (a b : list NormalizedMessage) (i : Z),
    format_inbox E i (a ++ b)
    = format_inbox E i a ++ format_inbox E (i + Z.of_nat (List.length a)) b /\
    format_search E i (a ++ b)
    = format_search E i a ++ format_search E (i + Z.of_nat (List.length a)) b.
Proof.
  intros X E a. induction a as [|e a IH]; intros b i.
  - simpl. rewrite Z.add_0_r. auto.
  - destruct (IH b (i + 1)%Z) as (Hinbox & Hsearch).
    cbn [app format_inbox format_search List.length].
    rewrite Hinbox, Hsearch.
    replace (i + 1 + Z.of_nat (List.length a))%Z
      with (i + Z.of_nat (S (List.length a)))%Z by lia.
    rewrite <- !app_assoc. auto.
Qed.
